(** * OCI Horizon: the inventory of [App.tsx] and its uses

    A shallow embedding of [processCSVData] (src/App.tsx, lines 65-92) and of
    the JavaScript operations it calls, followed by the properties of the
    aggregation; and of the code around it: the state of the component and
    the updates of its handlers (App.tsx), the theme, the chart of
    Dashboard.tsx and the keywords that [summarizeAndMatch] sends to the
    service.

    Conventions of the embedding:
    - a JavaScript string is a [string]; each character is one code unit
      (the code units 0..255), so the white space of [trim] and
      [parseFloat] is TAB, LF, VT, FF, CR, SP and NBSP;
    - a Number is an IEEE 754 binary64 value, [spec_float] with
      [prec = 53] and [emax = 1024]; [+] and [-] are [SFadd] and [SFsub],
      and [parseFloat] rounds the decimal it reads to the nearest Number;
    - [row[i]] is [nth_error]: [None] is [undefined];
    - [skuMap] is an object literal: its own properties are kept in creation
      order, and a read of [skuMap[k]] that finds no own property goes on to
      [Object.prototype];
    - a statement that can throw returns a [completion];
    - [Array.prototype.sort] is the stable sort by the sign of the
      comparator's result, which is what the language prescribes when the
      comparator is consistent; [sortAllows] states what it prescribes in
      general;
    - [setState(prev => ...)] applies its updater to the state; the calls
      of [setState] that handlers and the continuations of asynchronous
      handlers make are the steps of a transition relation, which may
      follow each other in any order; what the service answers is an
      arbitrary value of the type that types.ts declares.

    Part I is the embedding, Part II the vocabulary of the properties,
    Part III the lemmas, Part IV the properties of the aggregation and
    Part V the properties of the code around it. *)

From Stdlib Require Import ZArith List String Ascii Bool Lia.
From Stdlib Require Import Permutation Sorted SpecFloat.
Import ListNotations.

Local Open Scope string_scope.
Local Open Scope list_scope.
Local Open Scope Z_scope.

(* ================================================================== *)
(** * Part I: the embedding                                             *)
(* ================================================================== *)

(** ** Strings: [trim], [indexOf], [substring] *)

Module JSString.

Definition code (c : ascii) : Z := Z.of_N (N_of_ascii c).

(** WhiteSpace and LineTerminator code units below 256. *)
Definition isWhiteSpace (c : ascii) : bool :=
  let n := code c in
  ((9 <=? n) && (n <=? 13)) || (n =? 32) || (n =? 160).

Definition isDigit (c : ascii) : bool :=
  let n := code c in (48 <=? n) && (n <=? 57).

Definition digitValue (c : ascii) : Z := code c - 48.

Fixpoint trimStart (s : string) : string :=
  match s with
  | EmptyString => EmptyString
  | String c s' => if isWhiteSpace c then trimStart s' else s
  end.

Fixpoint trimEnd (s : string) : string :=
  match s with
  | EmptyString => EmptyString
  | String c s' =>
      match trimEnd s' with
      | EmptyString => if isWhiteSpace c then EmptyString
                       else String c EmptyString
      | t => String c t
      end
  end.

(** [String.prototype.trim] *)
Definition trim (s : string) : string := trimEnd (trimStart s).

Fixpoint startsWith (p s : string) : bool :=
  match p, s with
  | EmptyString, _ => true
  | String a p', String b s' => Ascii.eqb a b && startsWith p' s'
  | String _ _, EmptyString => false
  end.

Fixpoint indexOfFrom (p s : string) (i : Z) : Z :=
  if startsWith p s then i
  else match s with
       | EmptyString => -1
       | String _ s' => indexOfFrom p s' (i + 1)
       end.

(** [String.prototype.indexOf(searchString)]: the least position at which
    [p] occurs in [s], or [-1]. *)
Definition indexOf (s p : string) : Z := indexOfFrom p s 0.

(** [String.prototype.substring(start, end)]: both positions are clamped
    to [0 .. length] and swapped when out of order; a missing [end] is the
    length. *)
Definition substring (s : string) (start : Z) (end_ : option Z) : string :=
  let len := Z.of_nat (String.length s) in
  let intEnd := match end_ with Some e => e | None => len end in
  let finalStart := Z.min (Z.max start 0) len in
  let finalEnd := Z.min (Z.max intEnd 0) len in
  let from := Z.min finalStart finalEnd in
  let to := Z.max finalStart finalEnd in
  String.substring (Z.to_nat from) (Z.to_nat (to - from)) s.

End JSString.

(** ** Numbers: binary64 arithmetic, [ToBoolean], [parseFloat] *)

Module JSNumber.

Definition Number : Type := spec_float.

Definition prec : Z := 53.
Definition emax : Z := 1024.

Definition NaN : Number := S754_nan.
Definition Infinity : Number := S754_infinity false.
Definition zero : Number := S754_zero false.

(** The [+] and [-] of two Numbers. *)
Definition add (x y : Number) : Number := SFadd prec emax x y.
Definition sub (x y : Number) : Number := SFsub prec emax x y.

(** [ToBoolean] of a Number: [NaN], [+0] and [-0] are falsy. *)
Definition ToBoolean (x : Number) : bool :=
  match x with
  | S754_nan | S754_zero _ => false
  | _ => true
  end.

Definition isNaN (x : Number) : bool :=
  match x with S754_nan => true | _ => false end.

(** The sign of a Number as a sort order: [NaN] counts as [+0]. *)
Definition signOf (x : Number) : comparison :=
  match x with
  | S754_nan | S754_zero _ => Eq
  | S754_infinity s | S754_finite s _ _ => if s then Lt else Gt
  end.

(** [x || 0] on a Number [x]. *)
Definition orZero (x : Number) : Number :=
  if ToBoolean x then x else zero.

(** The Number nearest to [(-1)^neg * m * 10^e10], ties to even. *)
Definition ofDecimal (neg : bool) (m : Z) (e10 : Z) : Number :=
  match m with
  | Zpos p =>
      if 0 <=? e10
      then binary_normalize prec emax (cond_Zopp neg (m * 10 ^ e10)) 0 false
      else
        let d := 10 ^ (- e10) in
        let k := Z.max 0 (Zdigits2 d - Zdigits2 m + prec + 2) in
        let '(q, r) := Z.div_eucl (Z.shiftl m k) d in
        binary_round_aux prec emax neg q (- k) (new_location d r)
  | _ => S754_zero neg
  end.

Import JSString.

(** The longest prefix of decimal digits, read as a number, with the
    number of digits read and the rest of the string. *)
Fixpoint readDigits (s : string) (acc : Z) (n : Z) : Z * Z * string :=
  match s with
  | String c s' =>
      if isDigit c then readDigits s' (10 * acc + digitValue c) (n + 1)
      else (acc, n, s)
  | EmptyString => (acc, n, s)
  end.

(** An optional sign: whether it is [-], and the rest of the string. *)
Definition readSign (s : string) : bool * string :=
  match s with
  | String c t =>
      if Ascii.eqb c "+" then (false, t)
      else if Ascii.eqb c "-" then (true, t)
      else (false, s)
  | EmptyString => (false, s)
  end.

(** ExponentPart: [e] or [E], an optional sign and at least one digit;
    [0] when the text does not continue with a complete ExponentPart. *)
Definition readExponent (s : string) : Z :=
  match s with
  | String c s' =>
      if (Ascii.eqb c "e" || Ascii.eqb c "E")%bool then
        let '(neg, s'') := readSign s' in
        let '(e, n, _) := readDigits s'' 0 0 in
        if n =? 0 then 0 else cond_Zopp neg e
      else 0
  | EmptyString => 0
  end.

(** StrUnsignedDecimalLiteral, longest prefix: [Infinity], or digits with
    an optional point and fraction ([5.], [.5] and [5.5], not [.]) and an
    optional ExponentPart. *)
Definition readUnsigned (neg : bool) (s : string) : Number :=
  if startsWith "Infinity" s then S754_infinity neg
  else
    let '(ip, ni, s1) := readDigits s 0 0 in
    let integerOnly :=
      if ni =? 0 then NaN else ofDecimal neg ip (readExponent s1) in
    match s1 with
    | String c t =>
        if Ascii.eqb c "." then
          let '(m, nf, s2) := readDigits t ip 0 in
          if ((ni =? 0) && (nf =? 0))%bool then NaN
          else ofDecimal neg m (readExponent s2 - nf)
        else integerOnly
    | EmptyString => integerOnly
    end.

(** The global [parseFloat] applied to a string: leading white space is
    skipped, then the longest prefix that is a StrDecimalLiteral is
    converted; [NaN] when there is none. *)
Definition parseFloatString (s : string) : Number :=
  let '(neg, t) := readSign (trimStart s) in
  readUnsigned neg t.

(** [parseFloat(v)] for a cell [v] that may be [undefined]:
    [ToString(undefined)] is ["undefined"], which has no numeric prefix. *)
Definition parseFloat (v : option string) : Number :=
  match v with
  | Some s => parseFloatString s
  | None => NaN
  end.

End JSNumber.

(** ** Completions: a statement returns normally or throws a [TypeError] *)

Inductive completion (A : Type) : Type :=
| Normal (a : A)
| ThrowTypeError.

Arguments Normal {A} a.
Arguments ThrowTypeError {A}.

Definition bind {A B : Type} (c : completion A) (k : A -> completion B)
  : completion B :=
  match c with
  | Normal a => k a
  | ThrowTypeError => ThrowTypeError
  end.

Notation "x <- c ;; k" := (bind c (fun x => k))
  (at level 61, c at next level, right associativity).

(** [Array.prototype.forEach], threading the state the callback mutates. *)
Fixpoint forEach {S A : Type} (f : S -> A -> completion S) (l : list A) (s : S)
  : completion S :=
  match l with
  | [] => Normal s
  | x :: l' => s' <- f s x ;; forEach f l' s'
  end.

(** ** The application: [types.ts] and [processCSVData] of [App.tsx] *)

Module App.

Import JSString JSNumber.

(** [OCIConsumptionRow] of types.ts (the optional [region] and [shape] are
    never set by [processCSVData]).  [unit] holds [row[3]] as it is read,
    so it is a cell: a string or [undefined]. *)
Record OCIConsumptionRow : Type := {
  sku : string;
  productName : string;
  usageAmount : Number;
  unit : option string;
  cost : Number
}.

(** [skuMap]: the own properties of the object literal of line 69, in the
    order of their creation. *)
Definition SkuMap : Type := list (string * OCIConsumptionRow).

(** The part of the realm that [processCSVData] can reach and change: the
    properties [usageAmount] and [cost] that lines 85-86 create on
    [Object.prototype] when [skuId] is ["__proto__"]. *)
Record Realm : Type := {
  ObjectPrototype_usageAmount : option Number;
  ObjectPrototype_cost : option Number
}.

Definition initialRealm : Realm :=
  {| ObjectPrototype_usageAmount := None; ObjectPrototype_cost := None |}.

(** What reading [skuMap[skuId]] can yield. *)
Inductive Value : Type :=
| Undefined
| Num (n : Number)
| Row (r : OCIConsumptionRow)
| BuiltinFunction
| ObjectPrototype.

Definition ToBoolean (v : Value) : bool :=
  match v with
  | Undefined => false
  | Num n => JSNumber.ToBoolean n
  | Row _ | BuiltinFunction | ObjectPrototype => true
  end.

(** The function-valued properties of [Object.prototype]. *)
Definition builtinFunctionNames : list string :=
  [ "constructor"; "__defineGetter__"; "__defineSetter__"; "hasOwnProperty";
    "__lookupGetter__"; "__lookupSetter__"; "isPrototypeOf";
    "propertyIsEnumerable"; "toString"; "valueOf"; "toLocaleString" ].

Fixpoint getOwn (skuMap : SkuMap) (k : string) : option OCIConsumptionRow :=
  match skuMap with
  | [] => None
  | (k', r) :: rest => if String.eqb k' k then Some r else getOwn rest k
  end.

Definition getInherited (rlm : Realm) (k : string) : Value :=
  if String.eqb k "__proto__" then ObjectPrototype
  else if existsb (String.eqb k) builtinFunctionNames then BuiltinFunction
  else if String.eqb k "usageAmount" then
    match ObjectPrototype_usageAmount rlm with
    | Some n => Num n
    | None => Undefined
    end
  else if String.eqb k "cost" then
    match ObjectPrototype_cost rlm with
    | Some n => Num n
    | None => Undefined
    end
  else Undefined.

(** [skuMap[k]]: an own property, else one found on [Object.prototype]. *)
Definition get (rlm : Realm) (skuMap : SkuMap) (k : string) : Value :=
  match getOwn skuMap k with
  | Some r => Row r
  | None => getInherited rlm k
  end.

Fixpoint setOwn (skuMap : SkuMap) (k : string) (r : OCIConsumptionRow)
  : SkuMap :=
  match skuMap with
  | [] => []
  | (k', r') :: rest =>
      if String.eqb k' k then (k', r) :: rest
      else (k', r') :: setOwn rest k r
  end.

Inductive field : Type := UsageAmount | Cost.

Definition addToRow (f : field) (r : OCIConsumptionRow) (v : Number)
  : OCIConsumptionRow :=
  match f with
  | UsageAmount =>
      {| sku := sku r; productName := productName r;
         usageAmount := add (usageAmount r) v; unit := unit r;
         cost := cost r |}
  | Cost =>
      {| sku := sku r; productName := productName r;
         usageAmount := usageAmount r; unit := unit r;
         cost := add (cost r) v |}
  end.

(** [undefined + v] is [NaN]. *)
Definition addToProperty (old : option Number) (v : Number) : option Number :=
  Some (add (match old with Some n => n | None => NaN end) v).

Definition addToPrototype (f : field) (rlm : Realm) (v : Number) : Realm :=
  match f with
  | UsageAmount =>
      {| ObjectPrototype_usageAmount :=
           addToProperty (ObjectPrototype_usageAmount rlm) v;
         ObjectPrototype_cost := ObjectPrototype_cost rlm |}
  | Cost =>
      {| ObjectPrototype_usageAmount := ObjectPrototype_usageAmount rlm;
         ObjectPrototype_cost := addToProperty (ObjectPrototype_cost rlm) v |}
  end.

(** One of the statements [skuMap[skuId].usageAmount += usage] and
    [skuMap[skuId].cost += cost] (lines 85, 86).  On an own row the row is
    updated in place.  On [Object.prototype] the property lands on the
    prototype.  On a built-in function it lands on that function, which is
    not on the prototype chain of [skuMap].  A property of [undefined]
    cannot be read, and in a module (strict code) a property cannot be
    created on a number. *)
Definition compoundAdd (f : field) (skuId : string) (v : Number)
    (st : Realm * SkuMap) : completion (Realm * SkuMap) :=
  let '(rlm, skuMap) := st in
  match get rlm skuMap skuId with
  | Row r => Normal (rlm, setOwn skuMap skuId (addToRow f r v))
  | ObjectPrototype => Normal (addToPrototype f rlm v, skuMap)
  | BuiltinFunction => Normal st
  | Num _ => ThrowTypeError
  | Undefined => ThrowTypeError
  end.

(** The locals of the callback once a row has passed lines 73-75. *)
Record RowFields : Type := {
  skuId : string;
  name : string;
  unitCell : option string;
  usage : Number;
  rowCost : Number
}.

(** Lines 73-82.  [None] is the early [return] of line 73 or 75: a row is
    an array, hence truthy, so line 73 tests the length; [!fullSkuString]
    holds for [undefined] and for the empty string. *)
Definition rowFields (row : list string) : option RowFields :=
  if (Z.of_nat (List.length row) <? 9) then None
  else
    match nth_error row 2 with
    | None => None
    | Some EmptyString => None
    | Some fullSkuString =>
        let firstDash := indexOf fullSkuString " - " in
        let skuId :=
          if negb (firstDash =? -1)
          then trim (substring fullSkuString 0 (Some firstDash))
          else trim fullSkuString in
        let productName :=
          if negb (firstDash =? -1)
          then trim (substring fullSkuString (firstDash + 3) None)
          else trim fullSkuString in
        let usage := orZero (parseFloat (nth_error row 4)) in
        let cost := orZero (parseFloat (nth_error row 8)) in
        Some {| skuId := skuId; name := productName;
                unitCell := nth_error row 3;
                usage := usage; rowCost := cost |}
    end.

Definition newRow (f : RowFields) : OCIConsumptionRow :=
  {| sku := skuId f; productName := name f; usageAmount := usage f;
     unit := unitCell f; cost := rowCost f |}.

(** Lines 84-89. *)
Definition accumulate (f : RowFields) (st : Realm * SkuMap)
  : completion (Realm * SkuMap) :=
  let '(rlm, skuMap) := st in
  if ToBoolean (get rlm skuMap (skuId f)) then
    st' <- compoundAdd UsageAmount (skuId f) (usage f) st ;;
    compoundAdd Cost (skuId f) (rowCost f) st'
  else
    Normal (rlm, skuMap ++ [(skuId f, newRow f)]).

(** The callback of [rows.forEach] (lines 72-90). *)
Definition callback (st : Realm * SkuMap) (row : list string)
  : completion (Realm * SkuMap) :=
  match rowFields row with
  | None => Normal st
  | Some f => accumulate f st
  end.

Definition headerSentinel : string := "Subscription Plan Number".

Definition isHeader (row : list string) : bool :=
  match nth_error row 0 with
  | Some c => String.eqb c headerSentinel
  | None => false
  end.

(** Line 70: [data[0][0] === "Subscription Plan Number" ? data.slice(1) : data]. *)
Definition selectRows (data : list (list string))
  : completion (list (list string)) :=
  match nth_error data 0 with
  | None => ThrowTypeError
  | Some first => Normal (if isHeader first then skipn 1 data else data)
  end.

(** ** [Object.values] *)

(** A property key is an array index when it is the canonical decimal form
    of an integer below [2^32 - 1]. *)
Definition arrayIndex (k : string) : option Z :=
  match k with
  | EmptyString => None
  | String c rest =>
      let '(v, _, tl) := readDigits k 0 0 in
      if (String.eqb tl "" && (negb (Ascii.eqb c "0") || String.eqb rest "")
          && (v <=? 4294967294))%bool
      then Some v else None
  end.

Fixpoint insertIndex (e : Z * OCIConsumptionRow)
    (l : list (Z * OCIConsumptionRow)) : list (Z * OCIConsumptionRow) :=
  match l with
  | [] => [e]
  | e' :: l' => if fst e <=? fst e' then e :: l else e' :: insertIndex e l'
  end.

Fixpoint indexProperties (skuMap : SkuMap) : list (Z * OCIConsumptionRow) :=
  match skuMap with
  | [] => []
  | (k, r) :: rest =>
      match arrayIndex k with
      | Some i => insertIndex (i, r) (indexProperties rest)
      | None => indexProperties rest
      end
  end.

Fixpoint stringProperties (skuMap : SkuMap) : list OCIConsumptionRow :=
  match skuMap with
  | [] => []
  | (k, r) :: rest =>
      match arrayIndex k with
      | Some _ => stringProperties rest
      | None => r :: stringProperties rest
      end
  end.

(** [Object.values(skuMap)]: the values of the array-index keys in
    ascending numeric order, then those of the other keys in creation
    order. *)
Definition ObjectValues (skuMap : SkuMap) : list OCIConsumptionRow :=
  map snd (indexProperties skuMap) ++ stringProperties skuMap.

(** ** [Array.prototype.sort] with the comparator of line 92 *)

(** [(a, b) => b.cost - a.cost] *)
Definition compareFn (a b : OCIConsumptionRow) : Number :=
  sub (cost b) (cost a).

(** SortCompare: the sign of the comparator's result, [NaN] counting as
    [+0]. *)
Definition SortCompare (a b : OCIConsumptionRow) : comparison :=
  signOf (compareFn a b).

Fixpoint insertSorted (x : OCIConsumptionRow) (l : list OCIConsumptionRow)
  : list OCIConsumptionRow :=
  match l with
  | [] => [x]
  | y :: l' =>
      match SortCompare x y with
      | Gt => y :: insertSorted x l'
      | _ => x :: l
      end
  end.

(** The stable sort: an element stays in front of the later elements that
    compare equal to it. *)
Fixpoint arraySort (l : list OCIConsumptionRow) : list OCIConsumptionRow :=
  match l with
  | [] => []
  | x :: l' => insertSorted x (arraySort l')
  end.

(** ** [processCSVData] *)

(** What the function hands to [setState] and [runAnalysisWithData]:
    nothing on the early [return] of line 67, else [aggregatedData]. *)
Inductive Outcome : Type :=
| NoUpdate
| Update (aggregatedData : list OCIConsumptionRow).

(** Lines 66-90: [None] on the early [return], else the final [skuMap]. *)
Definition aggregate (rlm : Realm) (data : list (list string))
  : completion (Realm * option SkuMap) :=
  if (Z.of_nat (List.length data) =? 0) then Normal (rlm, None)
  else
    rows <- selectRows data ;;
    st <- forEach callback rows (rlm, []) ;;
    Normal (fst st, Some (snd st)).

Definition processCSVData (rlm : Realm) (data : list (list string))
  : completion (Realm * Outcome) :=
  r <- aggregate rlm data ;;
  match snd r with
  | None => Normal (fst r, NoUpdate)
  | Some skuMap => Normal (fst r, Update (arraySort (ObjectValues skuMap)))
  end.

(** Lines 95-100: [setState] replaces [consumptionData] by
    [aggregatedData]; the early [return] of line 67 replaces nothing. *)
Definition consumptionDataAfter (prev : list OCIConsumptionRow) (o : Outcome)
  : list OCIConsumptionRow :=
  match o with
  | NoUpdate => prev
  | Update aggregatedData => aggregatedData
  end.

(** [SAMPLE_DATA] (lines 9-14), what [loadSampleData] puts in
    [consumptionData]. *)
Definition SAMPLE_DATA : list OCIConsumptionRow :=
  [ {| sku := "B91214"; productName := "Compute - Standard - E4 - OCPU";
       usageAmount := ofDecimal false 450 0; unit := Some "OCPU/Hour";
       cost := ofDecimal false 125050 (-2) |};
    {| sku := "B88317"; productName := "Block Storage - Performance";
       usageAmount := ofDecimal false 5000 0; unit := Some "GB/Month";
       cost := ofDecimal false 84000 (-2) |};
    {| sku := "B92322"; productName := "Object Storage - Standard";
       usageAmount := ofDecimal false 12000 0; unit := Some "GB/Month";
       cost := ofDecimal false 31520 (-2) |};
    {| sku := "B93111"; productName := "Network - Outbound Data Transfer";
       usageAmount := ofDecimal false 2500 0; unit := Some "GB/Month";
       cost := ofDecimal false 12000 (-2) |} ].

End App.

(** ** Arrays and pieces of strings: [slice], [split], [Set], [join] *)

Module JSArray.

Import JSString.

(** [Array.prototype.slice(start, end)]: a negative position counts from
    the end, both positions are clamped to [0 .. length], and a missing
    [end] is the length. *)
Definition slice {A : Type} (l : list A) (start : Z) (end_ : option Z)
  : list A :=
  let len := Z.of_nat (List.length l) in
  let relativeEnd := match end_ with Some e => e | None => len end in
  let k := if start <? 0 then Z.max (len + start) 0 else Z.min start len in
  let final :=
    if relativeEnd <? 0 then Z.max (len + relativeEnd) 0
    else Z.min relativeEnd len in
  firstn (Z.to_nat (final - k)) (skipn (Z.to_nat k) l).

(** [String.prototype.split(separator)] for a non-empty separator, from a
    position that is [skip] code units before the end of the separator
    just matched; [cur] is the piece read so far. *)
Fixpoint splitFrom (sep s : string) (skip : nat) (cur : string)
  : list string :=
  match skip with
  | S k =>
      match s with
      | String _ s' => splitFrom sep s' k cur
      | EmptyString => [cur]
      end
  | O =>
      if startsWith sep s then
        match s with
        | String _ s' => cur :: splitFrom sep s' (String.length sep - 1) ""
        | EmptyString => [cur]
        end
      else
        match s with
        | String c s' => splitFrom sep s' 0 (cur ++ String c "")
        | EmptyString => [cur]
        end
  end.

(** [s.split(sep)]: the pieces of [s] between the occurrences of [sep],
    found from left to right; the code units of [s] when [sep] is empty. *)
Definition split (s sep : string) : list string :=
  match sep with
  | EmptyString => map (fun c => String c "") (list_ascii_of_string s)
  | _ => splitFrom sep s 0 ""
  end.

Definition SameValueZero (x y : option string) : bool :=
  match x, y with
  | Some a, Some b => String.eqb a b
  | None, None => true
  | _, _ => false
  end.

(** [Set.prototype.add] on the list of the elements in insertion order. *)
Definition setAdd (elements : list (option string)) (x : option string)
  : list (option string) :=
  if existsb (SameValueZero x) elements then elements else elements ++ [x].

(** [[...new Set(l)]]: the distinct elements of [l], each at its first
    occurrence. *)
Definition SetValues (l : list (option string)) : list (option string) :=
  fold_left setAdd l [].

(** [Array.prototype.join(sep)]: [undefined] is written as the empty
    string. *)
Definition join (l : list (option string)) (sep : string) : string :=
  String.concat sep
    (map (fun x => match x with Some s => s | None => "" end) l).

End JSArray.

(** ** [types.ts] *)

Module Types.

Import JSNumber App.

Record ReleaseNote : Type := {
  id : string;
  title : string;
  date : string;
  content : string;
  service : string;
  url : string;
  isRelevant : option bool;
  matchScore : option Number;
  summary : option string
}.

(** The [type] of an insight; ['cost'] is [CostInsight]. *)
Inductive InsightType : Type :=
| Optimization | Security | Architecture | CostInsight | Growth.

Inductive Impact : Type := High | Medium | Low.

(** The fields [type] and [title] are [insightType] and [insightTitle]:
    [title] is the field of [ReleaseNote]. *)
Record StrategicInsight : Type := {
  insightType : InsightType;
  insightTitle : string;
  description : string;
  impact : Impact;
  actionLabel : string;
  savings : option string;
  cveId : option string
}.

Inductive AnalysisStep : Type :=
| Idle | Parsing | Searching | Mapping | Insights | Complete.

Inductive Frequency : Type := Daily | Weekly | Monthly.

Record EmailSchedule : Type := {
  frequency : Frequency;
  dayOfWeek : Number;
  recipientEmail : string;
  enabled : bool;
  lastSent : option string
}.

Record AppState : Type := {
  consumptionData : list OCIConsumptionRow;
  releaseNotes : list ReleaseNote;
  insights : list StrategicInsight;
  isLoading : bool;
  error : option string;
  schedule : EmailSchedule;
  analysisStep : AnalysisStep
}.

End Types.

(** ** The service: the keywords of [summarizeAndMatch] *)

Module GeminiService.

Import JSString JSArray App.

(** [skus.slice(0, 10)] *)
Definition topSkus (skus : list OCIConsumptionRow) : list OCIConsumptionRow :=
  slice skus 0 (Some 10).

(** [s.productName.split(' - ')[0]] *)
Definition keywordOf (s : OCIConsumptionRow) : option string :=
  nth_error (split (productName s) " - ") 0.

(** [[...new Set(topSkus.map(s => s.productName.split(' - ')[0]))]] *)
Definition keywords (skus : list OCIConsumptionRow) : list (option string) :=
  SetValues (map keywordOf (topSkus skus)).

(** [serviceKeywords]: the keywords joined by [", "]. *)
Definition serviceKeywords (skus : list OCIConsumptionRow) : string :=
  join (keywords skus) ", ".

End GeminiService.

(** ** [Dashboard.tsx]: the chart of the cost concentration *)

Module Dashboard.

Import JSArray App.

(** [[...consumption].sort((a, b) => b.cost - a.cost).slice(0, 5)] *)
Definition topSKUs (consumption : list OCIConsumptionRow)
  : list OCIConsumptionRow :=
  slice (arraySort consumption) 0 (Some 5).

End Dashboard.

(** ** [App.tsx]: the state of the component and its updates *)

Module AppComponent.

Import JSString JSNumber App Types.

(** [MOCK_RELEASES] (lines 16-27) *)
Definition MOCK_RELEASES : list ReleaseNote :=
  [ {| id := "1";
       title := "Intelligence Engine Ready";
       date := "2024-05-22";
       content := "Upload CSV to begin real-time architectural matching.";
       service := "Horizon Engine";
       url := "https://docs.oracle.com/en-us/iaas/releasenotes/index.htm";
       isRelevant := Some true;
       matchScore := Some (ofDecimal false 100 0);
       summary := None |} ].

(** The initial [state] (lines 37-51). *)
Definition initialState : AppState :=
  {| consumptionData := [];
     releaseNotes := MOCK_RELEASES;
     insights := [];
     isLoading := false;
     error := None;
     schedule :=
       {| frequency := Weekly;
          dayOfWeek := ofDecimal false 1 0;
          recipientEmail := "cloud-admin@enterprise.com";
          enabled := true;
          lastSent := Some "Ready" |};
     analysisStep := Idle |}.

(** *** [{ ...prev, field: value }] *)

Definition set_consumptionData (v : list OCIConsumptionRow) (prev : AppState)
  : AppState :=
  {| consumptionData := v; releaseNotes := releaseNotes prev;
     insights := insights prev; isLoading := isLoading prev;
     error := error prev; schedule := schedule prev;
     analysisStep := analysisStep prev |}.

Definition set_releaseNotes (v : list ReleaseNote) (prev : AppState)
  : AppState :=
  {| consumptionData := consumptionData prev; releaseNotes := v;
     insights := insights prev; isLoading := isLoading prev;
     error := error prev; schedule := schedule prev;
     analysisStep := analysisStep prev |}.

Definition set_insights (v : list StrategicInsight) (prev : AppState)
  : AppState :=
  {| consumptionData := consumptionData prev;
     releaseNotes := releaseNotes prev;
     insights := v; isLoading := isLoading prev;
     error := error prev; schedule := schedule prev;
     analysisStep := analysisStep prev |}.

Definition set_isLoading (v : bool) (prev : AppState) : AppState :=
  {| consumptionData := consumptionData prev;
     releaseNotes := releaseNotes prev;
     insights := insights prev; isLoading := v;
     error := error prev; schedule := schedule prev;
     analysisStep := analysisStep prev |}.

Definition set_error (v : option string) (prev : AppState) : AppState :=
  {| consumptionData := consumptionData prev;
     releaseNotes := releaseNotes prev;
     insights := insights prev; isLoading := isLoading prev;
     error := v; schedule := schedule prev;
     analysisStep := analysisStep prev |}.

Definition set_schedule (v : EmailSchedule) (prev : AppState) : AppState :=
  {| consumptionData := consumptionData prev;
     releaseNotes := releaseNotes prev;
     insights := insights prev; isLoading := isLoading prev;
     error := error prev; schedule := v;
     analysisStep := analysisStep prev |}.

Definition set_analysisStep (v : AnalysisStep) (prev : AppState) : AppState :=
  {| consumptionData := consumptionData prev;
     releaseNotes := releaseNotes prev;
     insights := insights prev; isLoading := isLoading prev;
     error := error prev; schedule := schedule prev;
     analysisStep := v |}.

Definition set_recipientEmail (v : string) (prev : EmailSchedule)
  : EmailSchedule :=
  {| frequency := frequency prev; dayOfWeek := dayOfWeek prev;
     recipientEmail := v; enabled := enabled prev;
     lastSent := lastSent prev |}.

(** *** The updaters handed to [setState] *)

(** Lines 95-100, in [processCSVData]. *)
Definition showTable (aggregatedData : list OCIConsumptionRow)
    (prev : AppState) : AppState :=
  set_analysisStep Idle
    (set_isLoading false (set_consumptionData aggregatedData prev)).

(** Line 107, in [loadSampleData]. *)
Definition showSample (prev : AppState) : AppState :=
  set_consumptionData SAMPLE_DATA prev.

(** Line 114, in [handleFileUpload]. *)
Definition startParsing (prev : AppState) : AppState :=
  set_analysisStep Parsing (set_isLoading true prev).

(** Line 117, the [error] callback of [Papa.parse]. *)
Definition csvError (prev : AppState) : AppState :=
  set_error (Some "CSV Error") (set_isLoading false prev).

(** Line 122, the first statement of [runAnalysisWithData]. *)
Definition startSearching (prev : AppState) : AppState :=
  set_analysisStep Searching prev.

(** Line 126. *)
Definition showNotes (notes : list ReleaseNote) (prev : AppState)
  : AppState :=
  set_analysisStep Insights (set_releaseNotes notes prev).

(** Lines 130-135. *)
Definition showInsights (l : list StrategicInsight) (prev : AppState)
  : AppState :=
  set_isLoading false (set_analysisStep Complete (set_insights l prev)).

(** Line 137, three seconds later. *)
Definition backToIdle (prev : AppState) : AppState :=
  set_analysisStep Idle prev.

(** Line 140, the [catch] of [runAnalysisWithData]. *)
Definition syncFailed (prev : AppState) : AppState :=
  set_analysisStep Idle
    (set_error (Some "Intelligence sync failed") (set_isLoading false prev)).

(** Line 148, the first statement of [handleSendTestPreview]. *)
Definition startPreview (prev : AppState) : AppState :=
  set_isLoading true prev.

(** Line 158, its [catch]. *)
Definition previewFailed (prev : AppState) : AppState :=
  set_error (Some "Email synthesis failed") prev.

(** Line 160, its [finally]. *)
Definition endPreview (prev : AppState) : AppState :=
  set_isLoading false prev.

(** Line 315, the [onChange] of the recipient field. *)
Definition editRecipient (value : string) (prev : AppState) : AppState :=
  set_schedule (set_recipientEmail value (schedule prev)) prev.

(** *** The handlers, up to their first [await] *)

(** [processCSVData] as the [complete] callback of [Papa.parse]: the call
    of [setState] (lines 95-100) and then [runAnalysisWithData] (line 103),
    whose first statement is the [setState] of line 122; nothing on the
    early [return] of line 67. *)
Definition applyOutcome (o : Outcome) (st : AppState) : AppState :=
  match o with
  | NoUpdate => st
  | Update aggregatedData => startSearching (showTable aggregatedData st)
  end.

Definition onParseComplete (w : Realm * AppState) (data : list (list string))
  : completion (Realm * AppState) :=
  r <- processCSVData (fst w) data ;;
  Normal (fst r, applyOutcome (snd r) (snd w)).

(** [loadSampleData] (lines 106-109). *)
Definition loadSampleData (st : AppState) : AppState :=
  startSearching (showSample st).

(** [handleFileUpload] (lines 111-119), before the file is parsed:
    [file] is [e.target.files?.[0]]. *)
Definition handleFileUpload {File : Type} (file : option File)
    (st : AppState) : AppState :=
  match file with
  | None => st
  | Some _ => startParsing st
  end.

(** [runAnalysis] (line 144) *)
Definition runAnalysis (st : AppState) : AppState := startSearching st.

(** The [disabled] of the button that calls [runAnalysis] (line 217). *)
Definition refreshDisabled (st : AppState) : bool :=
  (Z.of_nat (List.length (consumptionData st)) =? 0)
  || negb (match analysisStep st with Idle => true | _ => false end).

(** *** The theme (lines 32-35 and 53-63) *)

(** [localStorage]: the value stored under each key. *)
Definition Storage : Type := string -> option string.

Definition getItem (st : Storage) (k : string) : option string := st k.

Definition setItem (st : Storage) (k v : string) : Storage :=
  fun k' => if String.eqb k' k then Some v else st k'.

(** What the theme reads and writes outside the component:
    [localStorage], whether [document.documentElement] has the class
    [dark], and whether the media query [(prefers-color-scheme: dark)]
    matches. *)
Record Browser : Type := {
  localStorage : Storage;
  classDark : bool;
  prefersDark : bool
}.

(** The initial value of [isDarkMode] (lines 32-35): a stored value that
    is not the empty string decides, else the media query. *)
Definition initialDarkMode (b : Browser) : bool :=
  match getItem (localStorage b) "horizon-theme" with
  | Some saved =>
      match saved with
      | EmptyString => prefersDark b
      | _ => String.eqb saved "dark"
      end
  | None => prefersDark b
  end.

(** The effect of lines 53-61. *)
Definition themeEffect (isDarkMode : bool) (b : Browser) : Browser :=
  if isDarkMode then
    {| localStorage := setItem (localStorage b) "horizon-theme" "dark";
       classDark := true; prefersDark := prefersDark b |}
  else
    {| localStorage := setItem (localStorage b) "horizon-theme" "light";
       classDark := false; prefersDark := prefersDark b |}.

Definition toggleDarkMode (isDarkMode : bool) : bool := negb isDarkMode.

End AppComponent.

(* ================================================================== *)
(** * Part II: vocabulary of the properties                             *)
(* ================================================================== *)

Module Props.

Import JSString JSNumber App.

(** ** Realms *)

Definition nanOrAbsent (p : option Number) : bool :=
  match p with
  | None => true
  | Some n => isNaN n
  end.

(** The properties that lines 85-86 may have left on [Object.prototype]
    hold [NaN]. *)
Definition realmOK (rlm : Realm) : bool :=
  nanOrAbsent (ObjectPrototype_usageAmount rlm)
  && nanOrAbsent (ObjectPrototype_cost rlm).

(** The realms that calls of [processCSVData] produce from the initial
    one. *)
Inductive reachable : Realm -> Prop :=
| reach_initial : reachable initialRealm
| reach_call (rlm rlm' : Realm) (data : list (list string)) (out : Outcome) :
    reachable rlm ->
    processCSVData rlm data = Normal (rlm', out) ->
    reachable rlm'.

(** ** Rows, fields and groups *)

(** The keys that read as present on a fresh object literal. *)
Definition shadowed (k : string) : bool :=
  String.eqb k "__proto__" || existsb (String.eqb k) builtinFunctionNames.

(** The rows that line 70 selects. *)
Definition rowsOf (data : list (list string)) : list (list string) :=
  match data with
  | [] => []
  | first :: rest => if isHeader first then rest else data
  end.

(** The rows that pass lines 73-75, as their fields, in row order. *)
Fixpoint fieldsOf (rows : list (list string)) : list RowFields :=
  match rows with
  | [] => []
  | row :: rest =>
      match rowFields row with
      | Some f => f :: fieldsOf rest
      | None => fieldsOf rest
      end
  end.

Definition group (k : string) (fs : list RowFields) : list RowFields :=
  filter (fun f => String.eqb (skuId f) k) fs.

(** The sum of a numeric field, added up in row order as line 85 and 86
    do. *)
Definition total (g : RowFields -> Number) (fs : list RowFields) : Number :=
  fold_left add (map g fs) zero.

(** The effect of lines 85-86 on an own row. *)
Definition merge (r : OCIConsumptionRow) (f : RowFields) : OCIConsumptionRow :=
  addToRow Cost (addToRow UsageAmount r (usage f)) (rowCost f).

(** The effect of the callback on the own properties of [skuMap]. *)
Definition stepMap (m : SkuMap) (f : RowFields) : SkuMap :=
  match getOwn m (skuId f) with
  | Some r => setOwn m (skuId f) (merge r f)
  | None => if shadowed (skuId f) then m else m ++ [(skuId f, newRow f)]
  end.

(** ** The order of Numbers *)

Definition emin : Z := SpecFloat.emin prec emax.

(** A finite Number [m * 2^e] has [emin <= e]. *)
Definition wellFormed (x : Number) : bool :=
  match x with
  | S754_finite _ _ e => emin <=? e
  | _ => true
  end.

(** The value of a finite Number in units of [2^emin]. *)
Definition scaled (x : Number) : Z :=
  match x with
  | S754_finite s m e => cond_Zopp s (Zpos m * 2 ^ (e - emin))
  | _ => 0
  end.

(** [x < y] and [x <= y] by value: false when either is [NaN]. *)
Definition numberLt (x y : Number) : bool :=
  match x, y with
  | S754_nan, _ | _, S754_nan => false
  | S754_infinity sx, S754_infinity sy => sx && negb sy
  | S754_infinity sx, _ => sx
  | _, S754_infinity sy => negb sy
  | _, _ => scaled x <? scaled y
  end.

Definition numberLe (x y : Number) : bool :=
  match x, y with
  | S754_nan, _ | _, S754_nan => false
  | S754_infinity sx, S754_infinity sy => sx || negb sy
  | S754_infinity sx, _ => sx
  | _, S754_infinity sy => negb sy
  | _, _ => scaled x <=? scaled y
  end.

Definition isFinite (x : Number) : bool :=
  match x with
  | S754_zero _ | S754_finite _ _ _ => true
  | _ => false
  end.

(** A valid binary64 value: a finite Number has its canonical mantissa and
    exponent. *)
Definition valid (x : Number) : bool := valid_binary prec emax x.

(** The mantissa [m] at the exponent [e] has as many digits as the format
    keeps at that magnitude. *)
Definition fits (m e : Z) : Prop := e = fexp prec emax (Zdigits2 m + e).

(** ** Sorted output *)

(** [a >= b] on Numbers, the IEEE 754 comparison. *)
Definition numberGe (a b : Number) : bool := SFleb b a.

(** Each item's amount is [>=] the amount of the item after it. *)
Definition nonIncreasing (l : list OCIConsumptionRow) : Prop :=
  Sorted (fun a b => numberGe (cost a) (cost b) = true) l.

(** Each item's amount is [>=] the amount of every later item. *)
Definition nonIncreasingThroughout (l : list OCIConsumptionRow) : Prop :=
  StronglySorted (fun a b => numberGe (cost a) (cost b) = true) l.

Definition notAfter (a b : OCIConsumptionRow) : Prop := SortCompare a b <> Gt.

(** The comparator of line 92 orders the elements of [l]. *)
Definition orderly (l : list OCIConsumptionRow) : Prop :=
  (forall a b, In a l -> In b l -> SortCompare a b = Gt -> SortCompare b a = Lt)
  /\ (forall a b c, In a l -> In b l -> In c l ->
        notAfter a b -> notAfter b c -> notAfter a c).

(** The comparator of line 92 is a consistent comparator for the elements
    of [l], as [Array.prototype.sort] requires: it never returns [NaN],
    and [<], [=], [>] by its sign are reflexive, symmetric and
    transitive. *)
Definition consistent (l : list OCIConsumptionRow) : Prop :=
  (forall a b, In a l -> In b l -> isNaN (compareFn a b) = false)
  /\ (forall a, In a l -> SortCompare a a = Eq)
  /\ (forall a b, In a l -> In b l -> SortCompare a b = Eq -> SortCompare b a = Eq)
  /\ (forall o a b c, In a l -> In b l -> In c l ->
        SortCompare a b = o -> SortCompare b c = o -> SortCompare a c = o).

(** What [l.sort(...)] may leave in the array: a permutation of [l],
    sorted by the comparator when the comparator is consistent.  When it
    is not, the order is implementation-defined. *)
Definition sortAllows (l l' : list OCIConsumptionRow) : Prop :=
  Permutation l l' /\ (consistent l -> StronglySorted notAfter l').

(** The outcomes that a call may have on some engine. *)
Definition mayReturn (rlm : Realm) (data : list (list string))
    (out : Outcome) : Prop :=
  exists rlm' r, aggregate rlm data = Normal (rlm', r) /\
    match r with
    | None => out = NoUpdate
    | Some skuMap =>
        exists l', sortAllows (ObjectValues skuMap) l' /\ out = Update l'
    end.

(** Two outcomes with the same items. *)
Definition sameItems (o1 o2 : Outcome) : Prop :=
  match o1, o2 with
  | NoUpdate, NoUpdate => True
  | Update l1, Update l2 => Permutation l1 l2
  | _, _ => False
  end.

(** ** Occurrences of a separator *)

Definition occursAt (p s : string) (b : string) : Prop :=
  exists a, s = (b ++ p ++ a)%string.

Definition firstOccurrence (p s : string) (b a : string) : Prop :=
  s = (b ++ p ++ a)%string /\
  forall b', occursAt p s b' -> (String.length b <= String.length b')%nat.



(** ** What the fold leaves in [skuMap] *)

(** The own properties of [skuMap] when line 92 is reached. *)
Definition finalMap (data : list (list string)) : SkuMap :=
  fold_left stepMap (fieldsOf (rowsOf data)) [].

(** The item of an id whose first row has the fields [first] and whose
    later rows have the fields [later]. *)
Definition summary (first : RowFields) (later : list RowFields)
  : OCIConsumptionRow :=
  {| sku := skuId first; productName := name first;
     usageAmount := fold_left add (map usage later) (usage first);
     unit := unitCell first;
     cost := fold_left add (map rowCost later) (rowCost first) |}.

Definition expected (k : string) (fs : list RowFields)
  : option OCIConsumptionRow :=
  if shadowed k then None
  else match group k fs with
       | [] => None
       | first :: later => Some (summary first later)
       end.

(** A Number that is neither zero nor [NaN] and has the sign [s]. *)
Definition signed (s : bool) (x : Number) : Prop :=
  match x with
  | S754_finite s' _ _ | S754_infinity s' => s' = s
  | _ => False
  end.

(** An item whose amount the comparator of line 92 can order. *)
Definition comparable (a : OCIConsumptionRow) : Prop :=
  valid (cost a) = true /\ isNaN (cost a) = false.

End Props.

(** ** The rest of the application *)

Module Behaviour.

Import JSString JSNumber JSArray App Props Types GeminiService Dashboard.
Import AppComponent.

(** *** Example data *)

(** Two rows with the ids [A] and [B], and the inventory they give. *)
Definition exampleRows : list (list string) :=
  [ [""; ""; "A - a"; "U"; "1"; ""; ""; ""; "2"];
    [""; ""; "B - b"; "U"; "3"; ""; ""; ""; "4"] ].

Definition exampleInventory : list OCIConsumptionRow :=
  [ {| sku := "B"; productName := "b"; usageAmount := ofDecimal false 3 0;
       unit := Some "U"; cost := ofDecimal false 4 0 |};
    {| sku := "A"; productName := "a"; usageAmount := ofDecimal false 1 0;
       unit := Some "U"; cost := ofDecimal false 2 0 |} ].

(** The same rows with other cells where the callback does not look. *)
Definition exampleRowsNoise : list (list string) :=
  [ ["plan"; "x"; "A - a"; "U"; "1"; "5"; "6"; "7"; "2"; "extra"];
    ["plan"; "y"; "B - b"; "U"; "3"; ""; ""; ""; "4"] ].

(** Two rows with the same amount, the second with an id that is an
    array index. *)
Definition exampleTies : list (list string) :=
  [ [""; ""; "X - x"; "U"; "1"; ""; ""; ""; "5"];
    [""; ""; "7 - seven"; "U"; "1"; ""; ""; ""; "5"] ].

Definition item7 : OCIConsumptionRow :=
  {| sku := "7"; productName := "seven"; usageAmount := ofDecimal false 1 0;
     unit := Some "U"; cost := ofDecimal false 5 0 |}.

Definition itemX : OCIConsumptionRow :=
  {| sku := "X"; productName := "x"; usageAmount := ofDecimal false 1 0;
     unit := Some "U"; cost := ofDecimal false 5 0 |}.

(** A row with the id [__proto__], and a row with too few cells. *)
Definition exampleProto : list (list string) :=
  [ [""; ""; "__proto__ - p"; "U"; "1"; ""; ""; ""; "2"] ].

Definition exampleShort : list (list string) := [ ["a"; "b"; "c"] ].

(** Seven items with the amounts 1 to 7. *)
Definition sevenItems : list OCIConsumptionRow :=
  map (fun n => {| sku := String (ascii_of_nat (64 + n)) "";
                   productName := "p";
                   usageAmount := ofDecimal false 1 0; unit := Some "U";
                   cost := ofDecimal false (Z.of_nat n) 0 |})
      [3; 1; 7; 5; 2; 6; 4]%nat.

(** *** Rows and realms *)

(** The cells that the callback reads of a row: none when the row has
    fewer than 9 cells, else those at the positions 2, 3, 4 and 8. *)
Definition cellsRead (row : list string) : option (list (option string)) :=
  if Z.of_nat (List.length row) <? 9 then None
  else Some [nth_error row 2; nth_error row 3; nth_error row 4;
             nth_error row 8].

(** Two inputs that differ only where [processCSVData] does not look. *)
Definition sameCellsRead (data data' : list (list string)) : Prop :=
  Forall2 (fun row row' => cellsRead row = cellsRead row') data data'
  /\ option_map isHeader (nth_error data 0)
     = option_map isHeader (nth_error data' 0).

(** [Object.prototype] once lines 85-86 have run on it. *)
Definition polluted : Realm :=
  {| ObjectPrototype_usageAmount := Some NaN;
     ObjectPrototype_cost := Some NaN |}.

(** Some row that passes lines 73-75 has the id ["__proto__"]. *)
Definition hasProtoId (data : list (list string)) : bool :=
  existsb (fun f => String.eqb (skuId f) "__proto__")
    (fieldsOf (rowsOf data)).

(** The text of [s] before the first occurrence of [sep], all of [s] when
    there is none. *)
Definition beforeFirst (sep s w : string) : Prop :=
  (exists a, firstOccurrence sep s w a)
  \/ ((forall b, ~ occursAt sep s b) /\ w = s).

(** One call of [setState], by a handler or by the continuation of an
    asynchronous one, on the realm and the state of the component. *)
Inductive step : Realm * AppState -> Realm * AppState -> Prop :=
| step_upload (rlm : Realm) (st : AppState) :
    step (rlm, st) (rlm, startParsing st)
| step_complete (w w' : Realm * AppState) (data : list (list string)) :
    onParseComplete w data = Normal w' -> step w w'
| step_csvError (rlm : Realm) (st : AppState) :
    step (rlm, st) (rlm, csvError st)
| step_sample (rlm : Realm) (st : AppState) :
    step (rlm, st) (rlm, loadSampleData st)
| step_runAnalysis (rlm : Realm) (st : AppState) :
    step (rlm, st) (rlm, runAnalysis st)
| step_notes (rlm : Realm) (st : AppState) (notes : list ReleaseNote) :
    step (rlm, st) (rlm, showNotes notes st)
| step_insights (rlm : Realm) (st : AppState) (l : list StrategicInsight) :
    step (rlm, st) (rlm, showInsights l st)
| step_idle (rlm : Realm) (st : AppState) :
    step (rlm, st) (rlm, backToIdle st)
| step_syncFailed (rlm : Realm) (st : AppState) :
    step (rlm, st) (rlm, syncFailed st)
| step_startPreview (rlm : Realm) (st : AppState) :
    step (rlm, st) (rlm, startPreview st)
| step_previewFailed (rlm : Realm) (st : AppState) :
    step (rlm, st) (rlm, previewFailed st)
| step_endPreview (rlm : Realm) (st : AppState) :
    step (rlm, st) (rlm, endPreview st)
| step_recipient (rlm : Realm) (st : AppState) (value : string) :
    step (rlm, st) (rlm, editRecipient value st).

(** The states that the component can be in, from its first render in a
    fresh realm. *)
Inductive reachableState : Realm * AppState -> Prop :=
| reach_first : reachableState (initialRealm, initialState)
| reach_step (w w' : Realm * AppState) :
    reachableState w -> step w w' -> reachableState w'.

(** [w'] is [w] or a state that follows it. *)
Inductive reaches : Realm * AppState -> Realm * AppState -> Prop :=
| reaches_now (w : Realm * AppState) : reaches w w
| reaches_step (w w' w'' : Realm * AppState) :
    reaches w w' -> step w' w'' -> reaches w w''.

(** [a] stands before [b] in [l]. *)
Definition precedes {A : Type} (l : list A) (a b : A) : Prop :=
  exists l1 l2 l3, l = l1 ++ a :: l2 ++ b :: l3.



(** [x >= 0] *)
Definition nonNegative (x : Number) : bool := numberGe x zero.

(** The steps of the analysis that some [setState] sets. *)
Definition stepsInUse : list AnalysisStep :=
  [Idle; Parsing; Searching; Insights; Complete].

End Behaviour.

(* ================================================================== *)
(** * Part III: lemmas                                                  *)
(* ================================================================== *)

Import JSString JSNumber App Props.

(** ** Strings *)

(** *** [indexOf] finds the first occurrence *)

Lemma startsWith_spec (p s : string) :
  startsWith p s = true <-> exists t, s = (p ++ t)%string.
Proof.
  revert s. induction p as [| a p IH]; intros s; simpl.
  - split; [exists s; reflexivity | reflexivity].
  - destruct s as [| b s].
    + split; [discriminate | intros [t H]; discriminate].
    + rewrite andb_true_iff, IH. split.
      * intros [Hab [t ->]]. apply Ascii.eqb_eq in Hab as ->. exists t. reflexivity.
      * intros [t [= -> ->]]. split; [apply Ascii.eqb_refl | exists t; reflexivity].
Qed.



(** *** [substring] on a concatenation *)







(** *** [parseFloat] ignores what follows the numeric prefix *)








Lemma readDigits_count (s : string) : forall acc n a n' rest,
  readDigits s acc n = (a, n', rest) -> n <= n'.
Proof.
  induction s as [| c s IH]; intros acc n a n' rest; simpl.
  - intros [= <- <- <-]. lia.
  - destruct (isDigit c).
    + intros H. apply IH in H. lia.
    + intros [= <- <- <-]. lia.
Qed.




Lemma readUnsigned_empty (neg : bool) : readUnsigned neg EmptyString = NaN.
Proof. reflexivity. Qed.


(** ** Binary64 arithmetic *)

(** *** Rounding keeps the sign and the exponent range *)

Lemma digits2_pos_bounds (m : positive) :
  2 ^ (Zpos (digits2_pos m) - 1) <= Zpos m < 2 ^ Zpos (digits2_pos m).
Proof.
  induction m as [m IH | m IH |]; simpl digits2_pos.
  - rewrite Pos2Z.inj_succ.
    replace (Z.succ (Zpos (digits2_pos m)) - 1) with (Z.succ (Zpos (digits2_pos m) - 1)) by lia.
    rewrite !Z.pow_succ_r by lia. lia.
  - rewrite Pos2Z.inj_succ.
    replace (Z.succ (Zpos (digits2_pos m)) - 1) with (Z.succ (Zpos (digits2_pos m) - 1)) by lia.
    rewrite !Z.pow_succ_r by lia. lia.
  - simpl. lia.
Qed.

Lemma shr_1_m (mrs : shr_record) :
  0 <= shr_m mrs -> shr_m (shr_1 mrs) = shr_m mrs / 2.
Proof.
  destruct mrs as [m r s]; simpl. intros Hm.
  destruct m as [| p | p]; try lia.
  - reflexivity.
  - destruct p as [p | p |]; simpl shr_m.
    + rewrite Pos2Z.inj_xI. apply Z.div_unique with 1; lia.
    + rewrite Pos2Z.inj_xO. apply Z.div_unique with 0; lia.
    + reflexivity.
Qed.

Lemma pow2_xI (p : positive) : 2 ^ Zpos p~1 = 2 * (2 ^ Zpos p * 2 ^ Zpos p).
Proof.
  replace (Zpos p~1) with (1 + (Zpos p + Zpos p)) by lia.
  rewrite !Z.pow_add_r by lia. reflexivity.
Qed.

Lemma pow2_xO (p : positive) : 2 ^ Zpos p~0 = 2 ^ Zpos p * 2 ^ Zpos p.
Proof.
  replace (Zpos p~0) with (Zpos p + Zpos p) by lia.
  rewrite !Z.pow_add_r by lia. reflexivity.
Qed.

Lemma iter_shr_1_m (p : positive) : forall mrs,
  0 <= shr_m mrs ->
  shr_m (iter_pos shr_1 p mrs) = shr_m mrs / 2 ^ Zpos p.
Proof.
  assert (Hnn : forall mrs, 0 <= shr_m mrs -> 0 <= shr_m (shr_1 mrs)).
  { intros mrs H. rewrite shr_1_m by assumption. apply Z.div_pos; lia. }
  induction p as [p IH | p IH |]; intros mrs Hm; simpl iter_pos.
  - assert (Hp : 0 < 2 ^ Zpos p) by (apply Z.pow_pos_nonneg; lia).
    assert (H1 : 0 <= shr_m (iter_pos shr_1 p (shr_1 mrs))).
    { rewrite IH by auto. apply Z.div_pos; auto. }
    rewrite IH, IH, shr_1_m by auto.
    rewrite pow2_xI, !Z.div_div by lia. reflexivity.
  - assert (Hp : 0 < 2 ^ Zpos p) by (apply Z.pow_pos_nonneg; lia).
    assert (H1 : 0 <= shr_m (iter_pos shr_1 p mrs)).
    { rewrite IH by auto. apply Z.div_pos; auto. }
    rewrite IH, IH by auto.
    rewrite pow2_xO, !Z.div_div by lia. reflexivity.
  - rewrite shr_1_m by auto. reflexivity.
Qed.


Lemma fexp_ge_emin (e : Z) : emin <= fexp prec emax e.
Proof. unfold fexp, emin. apply Z.le_max_r. Qed.

Lemma shr_record_of_loc_m (m : Z) (l : location) :
  shr_m (shr_record_of_loc m l) = m.
Proof. destruct l as [| []]; reflexivity. Qed.

Lemma shr_fexp_emin (m e : Z) (l : location) :
  emin <= snd (shr_fexp prec emax m e l).
Proof.
  unfold shr_fexp, shr.
  pose proof (fexp_ge_emin (Zdigits2 m + e)) as H.
  destruct (fexp prec emax (Zdigits2 m + e) - e) eqn:E; simpl; lia.
Qed.

Lemma shr_fexp_pos (m e : Z) (l : location) :
  0 < m -> emin <= e -> 0 < shr_m (fst (shr_fexp prec emax m e l)).
Proof.
  intros Hm He. unfold shr_fexp, shr.
  destruct (fexp prec emax (Zdigits2 m + e) - e) eqn:E; simpl;
    rewrite ?shr_record_of_loc_m; try assumption.
  rewrite iter_shr_1_m by (rewrite shr_record_of_loc_m; lia).
  rewrite shr_record_of_loc_m.
  destruct m as [| q | q]; try lia. simpl Zdigits2 in E.
  pose proof (digits2_pos_bounds q) as [Hlo _].
  assert (Hp : Zpos p <= Zpos (digits2_pos q) - 1).
  { unfold fexp in E. fold emin in E. unfold prec in E. lia. }
  assert (H2 : 2 ^ Zpos p <= 2 ^ (Zpos (digits2_pos q) - 1))
    by (apply Z.pow_le_mono_r; lia).
  apply Z.div_str_pos. split; [apply Z.pow_pos_nonneg; lia | lia].
Qed.

Lemma round_nearest_even_ge (m : Z) (l : location) :
  m <= round_nearest_even m l.
Proof.
  destruct l as [| []]; simpl; try lia. destruct (Z.even m); lia.
Qed.


Lemma binary_round_aux_signed (sx : bool) (mx ex : Z) (lx : location) :
  0 < mx -> emin <= ex ->
  signed sx (binary_round_aux prec emax sx mx ex lx).
Proof.
  intros Hm He. unfold binary_round_aux.
  pose proof (shr_fexp_pos mx ex lx Hm He) as H1.
  pose proof (shr_fexp_emin mx ex lx) as H2.
  destruct (shr_fexp prec emax mx ex lx) as [mrs' e']. simpl in H1, H2.
  pose proof (round_nearest_even_ge (shr_m mrs') (loc_of_shr_record mrs')) as H3.
  pose proof (shr_fexp_pos (round_nearest_even (shr_m mrs') (loc_of_shr_record mrs'))
                e' loc_Exact ltac:(lia) H2) as H4.
  destruct (shr_fexp prec emax _ e' loc_Exact) as [mrs'' e'']. simpl in H4.
  destruct (shr_m mrs''); try lia.
  destruct (e'' <=? emax - prec); reflexivity.
Qed.

Lemma iter_xO (d m : positive) : Zpos (Pos.iter xO m d) = Zpos m * 2 ^ Zpos d.
Proof.
  induction d as [| d IH] using Pos.peano_ind.
  - simpl. lia.
  - rewrite Pos.iter_succ, Pos2Z.inj_xO, IH, Pos2Z.inj_succ, Z.pow_succ_r by lia.
    lia.
Qed.

Lemma shl_align_fst (m : positive) (e e' : Z) :
  e' <= e -> Zpos (fst (shl_align m e e')) = Zpos m * 2 ^ (e - e').
Proof.
  intros H. unfold shl_align.
  destruct (e' - e) eqn:E; cbn [fst snd]; try lia.
  - replace (e - e') with 0 by lia. lia.
  - rewrite iter_xO. f_equal. f_equal. lia.
Qed.

Lemma shl_align_snd_emin (m : positive) (e e' : Z) :
  emin <= e -> emin <= e' -> emin <= snd (shl_align m e e').
Proof.
  intros H H'. unfold shl_align. destruct (e' - e); cbn [fst snd]; lia.
Qed.

Lemma binary_round_signed (sx : bool) (m : positive) (e : Z) :
  emin <= e -> signed sx (binary_round prec emax sx m e).
Proof.
  intros He. unfold binary_round.
  pose proof (shl_align_snd_emin m e (fexp prec emax (Zpos (digits2_pos m) + e))
                He (fexp_ge_emin _)) as H.
  destruct (shl_align m e _) as [mz ez]. simpl in H.
  apply binary_round_aux_signed; [lia | exact H].
Qed.



Lemma binary_normalize_sign (m e : Z) :
  emin <= e ->
  match m with
  | Z0 => binary_normalize prec emax m e false = S754_zero false
  | Zpos _ => signed false (binary_normalize prec emax m e false)
  | Zneg _ => signed true (binary_normalize prec emax m e false)
  end.
Proof.
  intros He. destruct m; simpl; auto using binary_round_signed.
Qed.

(** *** Rounding yields valid values *)

Lemma Zdigits2_unique (m d : Z) :
  0 < d -> 2 ^ (d - 1) <= m < 2 ^ d -> Zdigits2 m = d.
Proof.
  intros Hd [Hlo Hhi].
  assert (0 < m) by (pose proof (Z.pow_pos_nonneg 2 (d - 1)); lia).
  destruct m as [| q | q]; try lia. simpl.
  pose proof (digits2_pos_bounds q) as [Hl Hh].
  destruct (Z.lt_trichotomy (Zpos (digits2_pos q)) d) as [Hlt | [Heq | Hgt]];
    [| exact Heq |].
  - assert (2 ^ Zpos (digits2_pos q) <= 2 ^ (d - 1))
      by (apply Z.pow_le_mono_r; lia).
    lia.
  - assert (2 ^ d <= 2 ^ (Zpos (digits2_pos q) - 1))
      by (apply Z.pow_le_mono_r; lia).
    lia.
Qed.

Lemma Zdigits2_bounds (m : Z) :
  0 < m -> 2 ^ (Zdigits2 m - 1) <= m < 2 ^ Zdigits2 m.
Proof.
  intros H. destruct m as [| q | q]; try lia. apply digits2_pos_bounds.
Qed.

Lemma Zdigits2_pos (m : Z) : 0 < m -> 0 < Zdigits2 m.
Proof. intros H. destruct m; simpl; lia. Qed.

Lemma Zdigits2_shiftr (m n : Z) :
  0 < m -> 0 <= n < Zdigits2 m -> Zdigits2 (m / 2 ^ n) = Zdigits2 m - n.
Proof.
  intros Hm Hn. pose proof (Zdigits2_bounds m Hm) as [Hlo Hhi].
  assert (Hp : 0 < 2 ^ n) by (apply Z.pow_pos_nonneg; lia).
  apply Zdigits2_unique; [lia |]. split.
  - apply Z.div_le_lower_bound; [exact Hp |].
    rewrite <- Z.pow_add_r by lia.
    replace (n + (Zdigits2 m - n - 1)) with (Zdigits2 m - 1) by lia. exact Hlo.
  - apply Z.div_lt_upper_bound; [exact Hp |].
    rewrite <- Z.pow_add_r by lia.
    replace (n + (Zdigits2 m - n)) with (Zdigits2 m) by lia. exact Hhi.
Qed.

Lemma Zdigits2_mono (m m' : Z) : 0 < m -> m <= m' -> Zdigits2 m <= Zdigits2 m'.
Proof.
  intros Hm Hle.
  pose proof (Zdigits2_bounds m Hm) as [Hlo _].
  pose proof (Zdigits2_bounds m' ltac:(lia)) as [_ Hhi].
  destruct (Z.le_gt_cases (Zdigits2 m) (Zdigits2 m')) as [H | H]; [exact H |].
  assert (2 ^ Zdigits2 m' <= 2 ^ (Zdigits2 m - 1))
    by (apply Z.pow_le_mono_r; [lia | pose proof (Zdigits2_pos m' ltac:(lia)); lia]).
  lia.
Qed.

Lemma fexp_mono (a b : Z) : a <= b -> fexp prec emax a <= fexp prec emax b.
Proof. unfold fexp. lia. Qed.

Lemma shr_fexp_fits (m e : Z) (l : location) :
  0 < m -> e <= fexp prec emax (Zdigits2 m + e) ->
  let m' := shr_m (fst (shr_fexp prec emax m e l)) in
  let e' := snd (shr_fexp prec emax m e l) in
  0 <= m' /\ m' <= m /\ emin <= e'
  /\ (0 < m' -> fits m' e') /\ (m' = 0 -> e' = emin).
Proof.
  intros Hm He. unfold shr_fexp, shr.
  destruct (fexp prec emax (Zdigits2 m + e) - e) as [| n | n] eqn:En;
    cbn [fst snd]; rewrite ?shr_record_of_loc_m; try lia.
  - pose proof (fexp_ge_emin (Zdigits2 m + e)).
    repeat split; try lia. intros _. unfold fits. lia.
  - rewrite iter_shr_1_m by (rewrite shr_record_of_loc_m; lia).
    rewrite shr_record_of_loc_m.
    assert (Hp : 0 < 2 ^ Zpos n) by (apply Z.pow_pos_nonneg; lia).
    split; [apply Z.div_pos; lia |].
    split; [apply Z.div_le_upper_bound; nia |].
    pose proof (fexp_ge_emin (Zdigits2 m + e)).
    split; [lia |].
    assert (Hsmall : 0 < m / 2 ^ Zpos n \/ e + Zpos n = emin).
    { destruct (Z.lt_ge_cases (Zpos n) (Zdigits2 m)) as [Hlt | Hge].
      - left. pose proof (Zdigits2_bounds m Hm) as [Hlo _].
        assert (2 ^ Zpos n <= 2 ^ (Zdigits2 m - 1))
          by (apply Z.pow_le_mono_r; lia).
        apply Z.div_str_pos. lia.
      - right. unfold fexp in *. fold emin in *. unfold prec in *. lia. }
    split; [| intros H0; destruct Hsmall; lia].
    intros Hpos. unfold fits.
    assert (Hn : Zpos n < Zdigits2 m).
    { destruct (Z.lt_ge_cases (Zpos n) (Zdigits2 m)) as [Hlt | Hge];
        [exact Hlt |].
      pose proof (Zdigits2_bounds m Hm) as [_ Hhi].
      assert (2 ^ Zdigits2 m <= 2 ^ Zpos n) by (apply Z.pow_le_mono_r; lia).
      rewrite Z.div_small in Hpos by lia. lia. }
    rewrite Zdigits2_shiftr by lia.
    replace (Zdigits2 m - Zpos n + (e + Zpos n)) with (Zdigits2 m + e) by lia.
    lia.
Qed.

Lemma shr_fexp_zero (e : Z) (l : location) :
  shr_m (fst (shr_fexp prec emax 0 e l)) = 0.
Proof.
  unfold shr_fexp, shr.
  destruct (fexp prec emax (Zdigits2 0 + e) - e); cbn [fst];
    rewrite ?iter_shr_1_m; rewrite ?shr_record_of_loc_m; try reflexivity; lia.
Qed.

Lemma round_nearest_even_le (m : Z) (l : location) :
  round_nearest_even m l <= m + 1.
Proof.
  destruct l as [| []]; simpl; try lia. destruct (Z.even m); lia.
Qed.

Lemma binary_round_aux_valid (sx : bool) (mx ex : Z) (lx : location) :
  0 < mx -> ex <= fexp prec emax (Zdigits2 mx + ex) ->
  valid (binary_round_aux prec emax sx mx ex lx) = true.
Proof.
  intros Hm He. unfold binary_round_aux.
  pose proof (shr_fexp_fits mx ex lx Hm He) as (H0 & _ & He1 & Hfit & Hz).
  destruct (shr_fexp prec emax mx ex lx) as [mrs' e']. cbn [fst snd] in *.
  set (m1 := round_nearest_even (shr_m mrs') (loc_of_shr_record mrs')).
  pose proof (round_nearest_even_ge (shr_m mrs') (loc_of_shr_record mrs')) as Hge.
  fold m1 in Hge.
  destruct (Z.eq_dec m1 0) as [E0 | Hne].
  - rewrite E0. pose proof (shr_fexp_zero e' loc_Exact) as Hz0.
    destruct (shr_fexp prec emax 0 e' loc_Exact) as [mrs'' e''].
    cbn [fst] in Hz0. rewrite Hz0. reflexivity.
  - assert (Hm1 : 0 < m1) by lia.
    assert (He' : e' <= fexp prec emax (Zdigits2 m1 + e')).
    { destruct (Z.eq_dec (shr_m mrs') 0) as [Hzero | Hpos].
      - rewrite (Hz Hzero). apply fexp_ge_emin.
      - pose proof (Hfit ltac:(lia)) as Hf. unfold fits in Hf.
        rewrite Hf at 1. apply fexp_mono.
        pose proof (Zdigits2_mono (shr_m mrs') m1 ltac:(lia) Hge). lia. }
    pose proof (shr_fexp_fits m1 e' loc_Exact Hm1 He') as (H2 & _ & _ & Hfit2 & _).
    destruct (shr_fexp prec emax m1 e' loc_Exact) as [mrs'' e''].
    cbn [fst snd] in *.
    destruct (shr_m mrs'') as [| m2 | m2] eqn:E2; try reflexivity.
    destruct (e'' <=? emax - prec) eqn:Eb; [| reflexivity].
    unfold valid, valid_binary, bounded, canonical_mantissa.
    rewrite Eb, andb_true_r. apply Z.eqb_eq.
    pose proof (Hfit2 ltac:(lia)) as Hf. unfold fits in Hf. simpl Zdigits2 in Hf.
    symmetry. exact Hf.
Qed.

Lemma Zdigits2_shiftl (m k : Z) :
  0 < m -> 0 <= k -> Zdigits2 (m * 2 ^ k) = Zdigits2 m + k.
Proof.
  intros Hm Hk. pose proof (Zdigits2_bounds m Hm) as [Hlo Hhi].
  pose proof (Zdigits2_pos m Hm).
  assert (Hp : 0 < 2 ^ k) by (apply Z.pow_pos_nonneg; lia).
  apply Zdigits2_unique; [lia |]. split.
  - replace (Zdigits2 m + k - 1) with ((Zdigits2 m - 1) + k) by lia.
    rewrite Z.pow_add_r by lia. nia.
  - rewrite Z.pow_add_r by lia. nia.
Qed.

Lemma binary_round_valid (sx : bool) (m : positive) (e : Z) :
  valid (binary_round prec emax sx m e) = true.
Proof.
  unfold binary_round.
  set (f := fexp prec emax (Zpos (digits2_pos m) + e)).
  assert (H : 0 < Zpos (fst (shl_align m e f))
              /\ snd (shl_align m e f)
                 <= fexp prec emax (Zdigits2 (Zpos (fst (shl_align m e f)))
                                    + snd (shl_align m e f))).
  { split; [lia |]. unfold shl_align.
    destruct (f - e) as [| d | d] eqn:E; cbn [fst snd].
    - simpl Zdigits2. fold f. lia.
    - simpl Zdigits2. fold f. lia.
    - rewrite iter_xO, Zdigits2_shiftl by lia. simpl Zdigits2.
      replace (Zpos (digits2_pos m) + Zpos d + f)
        with (Zpos (digits2_pos m) + e) by lia.
      fold f. lia. }
  destruct (shl_align m e f) as [mz ez]. cbn [fst snd] in H.
  apply binary_round_aux_valid; tauto.
Qed.

Lemma binary_normalize_valid (m e : Z) (s : bool) :
  valid (binary_normalize prec emax m e s) = true.
Proof. destruct m; simpl; auto using binary_round_valid. Qed.

Lemma add_valid (x y : Number) :
  valid x = true -> valid y = true -> valid (add x y) = true.
Proof.
  intros Hx Hy. unfold add, SFadd.
  destruct x as [sx | sx | | sx mx ex], y as [sy | sy | | sy my ey];
    try assumption; try reflexivity;
    try (destruct sx, sy; reflexivity).
  apply binary_normalize_valid.
Qed.

Lemma ofDecimal_valid (neg : bool) (m e10 : Z) :
  valid (ofDecimal neg m e10) = true.
Proof.
  unfold ofDecimal. destruct m as [| p | p]; try reflexivity.
  destruct (Z.leb_spec 0 e10) as [Hpos | Hneg].
  - apply binary_normalize_valid.
  - set (d := 10 ^ (- e10)).
    set (k := Z.max 0 (Zdigits2 d - Zdigits2 (Zpos p) + prec + 2)).
    assert (Hd : 0 < d) by (apply Z.pow_pos_nonneg; lia).
    assert (Hk : 0 <= k) by lia.
    pose proof (Z_div_mod (Z.shiftl (Zpos p) k) d ltac:(lia)) as Hdiv.
    destruct (Z.div_eucl (Z.shiftl (Zpos p) k) d) as [q r].
    destruct Hdiv as [Hqr Hr].
    rewrite Z.shiftl_mul_pow2 in Hqr by exact Hk.
    pose proof (Zdigits2_bounds (Zpos p) ltac:(lia)) as [Hlo _].
    pose proof (Zdigits2_bounds d Hd) as [_ Hhi].
    pose proof (Zdigits2_pos d Hd) as Hdd.
    pose proof (Zdigits2_pos (Zpos p) ltac:(lia)) as Hdp.
    assert (Hbig : 2 ^ (prec + 1) * 2 ^ Zdigits2 d
                   <= 2 ^ (Zdigits2 (Zpos p) - 1) * 2 ^ k).
    { rewrite <- !Z.pow_add_r by (unfold prec; lia).
      apply Z.pow_le_mono_r; unfold prec in *; lia. }
    assert (Hq : 2 ^ (prec + 1) <= q).
    { assert (0 < 2 ^ (prec + 1)) by (apply Z.pow_pos_nonneg; unfold prec; lia).
      assert (0 < 2 ^ k) by (apply Z.pow_pos_nonneg; lia).
      nia. }
    assert (Hq0 : 0 < q)
      by (pose proof (Z.pow_pos_nonneg 2 (prec + 1)); unfold prec in *; lia).
    apply binary_round_aux_valid; [exact Hq0 |].
    assert (Hdq : prec + 2 <= Zdigits2 q).
    { rewrite <- (Zdigits2_unique (2 ^ (prec + 1)) (prec + 2)).
      - apply Zdigits2_mono; [apply Z.pow_pos_nonneg; unfold prec; lia | exact Hq].
      - unfold prec. lia.
      - replace (prec + 2 - 1) with (prec + 1) by lia. split; [lia |].
        apply Z.pow_lt_mono_r; unfold prec; lia. }
    unfold fexp. lia.
Qed.

Lemma readUnsigned_valid (neg : bool) (s : string) :
  valid (readUnsigned neg s) = true.
Proof.
  unfold readUnsigned. destruct (startsWith _ s); try reflexivity.
  destruct (readDigits s 0 0) as [[ip ni] s1].
  assert (H : valid (if ni =? 0 then NaN
                     else ofDecimal neg ip (readExponent s1)) = true).
  { destruct (ni =? 0); [reflexivity | apply ofDecimal_valid]. }
  destruct s1 as [| c t]; [exact H |].
  destruct (Ascii.eqb c "."); [| exact H].
  destruct (readDigits t ip 0) as [[m nf] s2].
  destruct ((ni =? 0) && (nf =? 0))%bool;
    [reflexivity | apply ofDecimal_valid].
Qed.

Lemma parseFloat_valid (v : option string) : valid (parseFloat v) = true.
Proof.
  destruct v as [s |]; [| reflexivity].
  unfold parseFloat, parseFloatString.
  destruct (readSign (trimStart s)) as [neg t].
  apply readUnsigned_valid.
Qed.

Lemma orZero_valid (x : Number) : valid x = true -> valid (orZero x) = true.
Proof. unfold orZero. destruct (JSNumber.ToBoolean x); auto. Qed.

Lemma valid_wellFormed (x : Number) : valid x = true -> wellFormed x = true.
Proof.
  destruct x as [| | | s m e]; try reflexivity.
  unfold valid, valid_binary, bounded, canonical_mantissa, wellFormed.
  intros H. apply andb_prop in H as [H _]. apply Z.eqb_eq in H.
  apply Z.leb_le. rewrite <- H. apply fexp_ge_emin.
Qed.

(** *** The sign of a difference *)

Lemma signed_signOf (s : bool) (x : Number) :
  signed s x -> signOf x = if s then Lt else Gt.
Proof. destruct x; simpl; intros H; try contradiction; subst; reflexivity. Qed.

Lemma cond_Zopp_mul (s : bool) (a b : Z) :
  cond_Zopp s (a * b) = cond_Zopp s a * b.
Proof. destruct s; simpl; lia. Qed.

Lemma scaled_align (s : bool) (m : positive) (e ez : Z) :
  emin <= ez -> ez <= e ->
  scaled (S754_finite s m e)
  = cond_Zopp s (Zpos (fst (shl_align m e ez))) * 2 ^ (ez - emin).
Proof.
  intros H1 H2. unfold scaled. rewrite shl_align_fst by assumption.
  rewrite <- cond_Zopp_mul. f_equal.
  replace (e - emin) with ((e - ez) + (ez - emin)) by lia.
  rewrite Z.pow_add_r by lia. ring.
Qed.

Lemma sub_finite_sign (sx sy : bool) (mx my : positive) (ex ey : Z) :
  emin <= ex -> emin <= ey ->
  signOf (sub (S754_finite sy my ey) (S754_finite sx mx ex))
  = (scaled (S754_finite sy my ey) ?= scaled (S754_finite sx mx ex)).
Proof.
  intros Hx Hy. unfold sub, SFsub.
  set (ez := Z.min ey ex).
  rewrite (scaled_align sy my ey ez), (scaled_align sx mx ex ez) by lia.
  set (Y := cond_Zopp sy (Zpos (fst (shl_align my ey ez)))).
  set (X := cond_Zopp sx (Zpos (fst (shl_align mx ex ez)))).
  assert (HP : 0 < 2 ^ (ez - emin)) by (apply Z.pow_pos_nonneg; lia).
  pose proof (binary_normalize_sign (Y - X) ez ltac:(lia)) as H.
  destruct (Y - X) eqn:E.
  - rewrite H. simpl. symmetry. apply Z.compare_eq_iff. f_equal. lia.
  - rewrite (signed_signOf _ _ H). symmetry. apply Z.compare_gt_iff. nia.
  - rewrite (signed_signOf _ _ H). symmetry. apply Z.compare_lt_iff. nia.
Qed.

Lemma scaled_finite_sign (s : bool) (m : positive) (e : Z) :
  emin <= e ->
  (scaled (S754_finite s m e) ?= 0) = if s then Lt else Gt.
Proof.
  intros He. unfold scaled.
  assert (0 < Zpos m * 2 ^ (e - emin)).
  { apply Z.mul_pos_pos; [lia | apply Z.pow_pos_nonneg; lia]. }
  destruct s; unfold cond_Zopp; [apply Z.compare_lt_iff | apply Z.compare_gt_iff]; lia.
Qed.

(** The sign of [y - x] tells how [x] and [y] compare. *)
Lemma sub_sign (x y : Number) :
  wellFormed x = true -> wellFormed y = true ->
  isNaN x = false -> isNaN y = false ->
  (signOf (sub y x) = Gt <-> numberLt x y = true) /\
  (signOf (sub y x) = Lt <-> numberLt y x = true).
Proof.
  intros Wx Wy Nx Ny.
  destruct x as [sx | sx | | sx mx ex]; try discriminate;
  destruct y as [sy | sy | | sy my ey]; try discriminate;
  try (destruct sx, sy; simpl; split; split; (discriminate || reflexivity)).
  - (* x zero, y finite *)
    simpl in Wy. apply Z.leb_le in Wy.
    pose proof (scaled_finite_sign sy my ey Wy) as H.
    unfold numberLt. rewrite Z.ltb_compare, Z.ltb_compare.
    rewrite (Z.compare_antisym (scaled (S754_finite sy my ey)) (scaled (S754_zero sx))).
    change (scaled (S754_zero sx)) with 0. rewrite H.
    destruct sx, sy; simpl; split; split; (discriminate || reflexivity).
  - (* x finite, y zero *)
    simpl in Wx. apply Z.leb_le in Wx.
    pose proof (scaled_finite_sign sx mx ex Wx) as H.
    unfold numberLt. rewrite Z.ltb_compare, Z.ltb_compare.
    rewrite (Z.compare_antisym (scaled (S754_finite sx mx ex)) (scaled (S754_zero sy))).
    change (scaled (S754_zero sy)) with 0. rewrite H.
    destruct sx, sy; simpl; split; split; (discriminate || reflexivity).
  - (* both finite *)
    simpl in Wx, Wy. apply Z.leb_le in Wx, Wy.
    rewrite (sub_finite_sign sx sy mx my ex ey Wx Wy).
    unfold numberLt. rewrite Z.ltb_compare, Z.ltb_compare.
    rewrite (Z.compare_antisym (scaled (S754_finite sy my ey)) (scaled (S754_finite sx mx ex))).
    destruct (scaled (S754_finite sy my ey) ?= scaled (S754_finite sx mx ex));
      simpl; split; split; (discriminate || reflexivity).
Qed.






(** *** The order of Numbers *)

Lemma numberLt_not_le (x y : Number) :
  isNaN x = false -> isNaN y = false ->
  numberLt x y = negb (numberLe y x).
Proof.
  intros Nx Ny.
  destruct x as [sx | sx | | sx mx ex]; try discriminate;
  destruct y as [sy | sy | | sy my ey]; try discriminate;
  unfold numberLt, numberLe;
  try (destruct sx, sy; reflexivity); try (destruct sx; reflexivity);
  try (destruct sy; reflexivity);
  rewrite Z.ltb_antisym; reflexivity.
Qed.

Lemma numberLe_trans (x y z : Number) :
  numberLe x y = true -> numberLe y z = true -> numberLe x z = true.
Proof.
  destruct x as [sx | sx | | sx mx ex], y as [sy | sy | | sy my ey],
           z as [sz | sz | | sz mz ez];
    unfold numberLe; try discriminate; try reflexivity;
    try (destruct sx, sy, sz; (discriminate || reflexivity));
    try (destruct sx, sy; (discriminate || reflexivity));
    try (destruct sy, sz; (discriminate || reflexivity));
    try (destruct sx, sz; (discriminate || reflexivity));
    try (destruct sx; (discriminate || reflexivity));
    try (destruct sy; (discriminate || reflexivity));
    try (destruct sz; (discriminate || reflexivity));
    rewrite !Z.leb_le; lia.
Qed.

Lemma numberLe_total (x y : Number) :
  isNaN x = false -> isNaN y = false ->
  numberLe x y = true \/ numberLe y x = true.
Proof.
  intros Nx Ny.
  destruct x as [sx | sx | | sx mx ex]; try discriminate;
  destruct y as [sy | sy | | sy my ey]; try discriminate;
  unfold numberLe;
  try (destruct sx, sy; auto); try (destruct sx; auto); try (destruct sy; auto);
  rewrite !Z.leb_le; lia.
Qed.

(** *** The value order is the IEEE comparison of valid values *)

Lemma valid_finite (s : bool) (m : positive) (e : Z) :
  valid (S754_finite s m e) = true ->
  e = fexp prec emax (Zpos (digits2_pos m) + e) /\ emin <= e.
Proof.
  unfold valid, valid_binary, bounded, canonical_mantissa. intros H.
  apply andb_prop in H as [H _]. apply Z.eqb_eq in H.
  split; [symmetry; exact H | rewrite <- H; apply fexp_ge_emin].
Qed.

Lemma canonical_lt (m1 m2 : positive) (e1 e2 : Z) :
  valid (S754_finite false m1 e1) = true ->
  valid (S754_finite false m2 e2) = true ->
  e1 < e2 ->
  Zpos m1 * 2 ^ (e1 - emin) < Zpos m2 * 2 ^ (e2 - emin).
Proof.
  intros V1 V2 Hlt.
  apply valid_finite in V1 as [C1 E1], V2 as [C2 E2].
  pose proof (digits2_pos_bounds m1) as [_ Hhi].
  pose proof (digits2_pos_bounds m2) as [Hlo _].
  unfold fexp in C1, C2. fold emin in C1, C2.
  assert (D2 : Zpos (digits2_pos m2) = prec) by lia.
  assert (D1 : Zpos (digits2_pos m1) <= prec) by lia.
  rewrite D2 in Hlo.
  assert (H1 : Zpos m1 < 2 ^ prec).
  { assert (2 ^ Zpos (digits2_pos m1) <= 2 ^ prec)
      by (apply Z.pow_le_mono_r; lia).
    lia. }
  assert (Hp1 : 0 < 2 ^ (e1 - emin)) by (apply Z.pow_pos_nonneg; lia).
  assert (Hsplit : 2 ^ (e2 - emin) = 2 ^ (e2 - e1 - 1) * (2 * 2 ^ (e1 - emin))).
  { rewrite <- Z.pow_succ_r by lia. rewrite <- Z.pow_add_r by lia.
    f_equal; lia. }
  assert (Hp2 : 1 <= 2 ^ (e2 - e1 - 1))
    by (pose proof (Z.pow_pos_nonneg 2 (e2 - e1 - 1)); lia).
  assert (Hprec : 2 ^ prec = 2 * 2 ^ (prec - 1)).
  { rewrite <- Z.pow_succ_r by (unfold prec; lia). f_equal; lia. }
  rewrite Hsplit. nia.
Qed.

Lemma compare_scale (a b p : Z) : 0 < p -> (a * p ?= b * p) = (a ?= b).
Proof.
  intros Hp. destruct (Z.compare_spec a b) as [-> | H | H].
  - apply Z.compare_refl.
  - apply Z.compare_lt_iff. nia.
  - apply Z.compare_gt_iff. nia.
Qed.

Lemma compare_opp (a b : Z) : (- a ?= - b) = CompOpp (a ?= b).
Proof. rewrite Z.compare_opp. apply Z.compare_antisym. Qed.

Lemma SFcompare_positive (m1 m2 : positive) (e1 e2 : Z) :
  valid (S754_finite false m1 e1) = true ->
  valid (S754_finite false m2 e2) = true ->
  match e1 ?= e2 with
  | Lt => Lt
  | Gt => Gt
  | Eq => Pos.compare_cont Eq m1 m2
  end = (Zpos m1 * 2 ^ (e1 - emin) ?= Zpos m2 * 2 ^ (e2 - emin)).
Proof.
  intros V1 V2. destruct (Z.compare_spec e1 e2) as [-> | H | H].
  - pose proof (valid_finite _ _ _ V2) as [_ E2].
    rewrite compare_scale by (apply Z.pow_pos_nonneg; lia). reflexivity.
  - symmetry. apply Z.compare_lt_iff. apply canonical_lt; assumption.
  - symmetry. apply Z.compare_gt_iff. apply canonical_lt; assumption.
Qed.

Lemma valid_sign (s s' : bool) (m : positive) (e : Z) :
  valid (S754_finite s m e) = valid (S754_finite s' m e).
Proof. reflexivity. Qed.

Lemma SFcompare_finite (x y : Number) :
  valid x = true -> valid y = true ->
  isFinite x = true -> isFinite y = true ->
  SFcompare x y = Some (scaled x ?= scaled y).
Proof.
  intros Vx Vy Fx Fy.
  destruct x as [sx | sx | | sx mx ex]; try discriminate;
  destruct y as [sy | sy | | sy my ey]; try discriminate.
  - reflexivity.
  - pose proof (valid_finite _ _ _ Vy) as [_ Ey].
    change (scaled (S754_zero sx)) with 0.
    rewrite Z.compare_antisym, (scaled_finite_sign sy my ey Ey).
    destruct sy; reflexivity.
  - pose proof (valid_finite _ _ _ Vx) as [_ Ex].
    change (scaled (S754_zero sy)) with 0.
    rewrite (scaled_finite_sign sx mx ex Ex). destruct sx; reflexivity.
  - pose proof (valid_finite _ _ _ Vx) as [_ Ex].
    pose proof (valid_finite _ _ _ Vy) as [_ Ey].
    assert (Px : 0 < Zpos mx * 2 ^ (ex - emin))
      by (apply Z.mul_pos_pos; [lia | apply Z.pow_pos_nonneg; lia]).
    assert (Py : 0 < Zpos my * 2 ^ (ey - emin))
      by (apply Z.mul_pos_pos; [lia | apply Z.pow_pos_nonneg; lia]).
    unfold SFcompare, scaled, cond_Zopp. f_equal.
    destruct sx, sy.
    + rewrite compare_opp, <- SFcompare_positive by assumption.
      destruct (ex ?= ey); reflexivity.
    + symmetry. apply Z.compare_lt_iff. lia.
    + symmetry. apply Z.compare_gt_iff. lia.
    + apply SFcompare_positive; assumption.
Qed.

(** On valid Numbers, [numberLe] is the comparison [SFleb] of the
    floating-point specification. *)
Lemma SFleb_numberLe (x y : Number) :
  valid x = true -> valid y = true ->
  SFleb x y = numberLe x y.
Proof.
  intros Vx Vy. unfold SFleb.
  destruct (isFinite x) eqn:Fx, (isFinite y) eqn:Fy.
  - rewrite (SFcompare_finite x y Vx Vy Fx Fy).
    replace (numberLe x y) with (scaled x <=? scaled y)
      by (destruct x, y; try discriminate; reflexivity).
    unfold Z.leb. destruct (scaled x ?= scaled y); reflexivity.
  - destruct x as [sx | sx | | sx mx ex], y as [sy | sy | | sy my ey];
      try discriminate; try reflexivity; destruct sy; reflexivity.
  - destruct x as [sx | sx | | sx mx ex], y as [sy | sy | | sy my ey];
      try discriminate; try reflexivity; destruct sx; reflexivity.
  - destruct x as [sx | sx | | sx mx ex], y as [sy | sy | | sy my ey];
      try discriminate; try reflexivity; destruct sx, sy; reflexivity.
Qed.

(** *** The comparator of line 92 on valid amounts *)

Lemma SortCompare_signOf (a b : OCIConsumptionRow) :
  SortCompare a b = signOf (compareFn a b).
Proof. reflexivity. Qed.

Lemma SortCompare_Gt (a b : OCIConsumptionRow) :
  comparable a -> comparable b ->
  (SortCompare a b = Gt <-> numberLt (cost a) (cost b) = true).
Proof.
  intros [Wa Na] [Wb Nb]. rewrite SortCompare_signOf. unfold compareFn.
  apply (sub_sign (cost a) (cost b)); auto using valid_wellFormed.
Qed.

Lemma SortCompare_Lt (a b : OCIConsumptionRow) :
  comparable a -> comparable b ->
  (SortCompare a b = Lt <-> numberLt (cost b) (cost a) = true).
Proof.
  intros [Wa Na] [Wb Nb]. rewrite SortCompare_signOf. unfold compareFn.
  apply (sub_sign (cost a) (cost b)); auto using valid_wellFormed.
Qed.

Lemma notAfter_numberLe (a b : OCIConsumptionRow) :
  comparable a -> comparable b ->
  (notAfter a b <-> numberLe (cost b) (cost a) = true).
Proof.
  intros Ca Cb. unfold notAfter. rewrite (SortCompare_Gt a b Ca Cb).
  destruct Ca as [_ Na], Cb as [_ Nb].
  rewrite (numberLt_not_le _ _ Na Nb).
  destruct (numberLe (cost b) (cost a)); simpl; split; congruence.
Qed.

Lemma notAfter_numberGe (a b : OCIConsumptionRow) :
  comparable a -> comparable b ->
  (notAfter a b <-> numberGe (cost a) (cost b) = true).
Proof.
  intros Ca Cb. rewrite (notAfter_numberLe a b Ca Cb). unfold numberGe.
  destruct Ca as [Va _], Cb as [Vb _].
  rewrite (SFleb_numberLe _ _ Vb Va). tauto.
Qed.

Lemma comparable_orderly (l : list OCIConsumptionRow) :
  Forall comparable l -> orderly l.
Proof.
  intros H. rewrite Forall_forall in H. split.
  - intros a b Ha Hb Hgt.
    apply (SortCompare_Gt a b (H a Ha) (H b Hb)) in Hgt.
    apply (SortCompare_Lt b a (H b Hb) (H a Ha)). exact Hgt.
  - intros a b c Ha Hb Hc Hab Hbc.
    apply (notAfter_numberLe a b (H a Ha) (H b Hb)) in Hab.
    apply (notAfter_numberLe b c (H b Hb) (H c Hc)) in Hbc.
    apply (notAfter_numberLe a c (H a Ha) (H c Hc)).
    eapply numberLe_trans; eassumption.
Qed.

Lemma consistent_orderly (l : list OCIConsumptionRow) :
  consistent l -> orderly l.
Proof.
  intros (_ & Hrefl & Hsym & Htrans).
  assert (Htot : forall a b, In a l -> In b l ->
                   SortCompare a b = Gt -> SortCompare b a = Lt).
  { intros a b Ha Hb Hgt. destruct (SortCompare b a) eqn:E; auto.
    - apply Hsym in E; auto. congruence.
    - pose proof (Htrans Gt a b a Ha Hb Ha Hgt E) as H.
      rewrite (Hrefl a Ha) in H. discriminate. }
  split; [exact Htot |].
  intros a b c Ha Hb Hc Hab Hbc Hac. unfold notAfter in *.
  pose proof (Htot a c Ha Hc Hac) as Hca.
  destruct (SortCompare a b) eqn:Eab; try congruence;
  destruct (SortCompare b c) eqn:Ebc; try congruence.
  - pose proof (Htrans Eq a b c Ha Hb Hc Eab Ebc). congruence.
  - pose proof (Htrans Lt b c a Hb Hc Ha Ebc Hca) as H.
    apply Hsym in Eab; auto. congruence.
  - pose proof (Htrans Lt c a b Hc Ha Hb Hca Eab) as H.
    apply Hsym in Ebc; auto. congruence.
  - pose proof (Htrans Lt a b c Ha Hb Hc Eab Ebc). congruence.
Qed.

(** *** The sort *)

Lemma insertSorted_perm (x : OCIConsumptionRow) (l : list OCIConsumptionRow) :
  Permutation (x :: l) (insertSorted x l).
Proof.
  induction l as [| y l IH]; simpl.
  - apply Permutation_refl.
  - destruct (SortCompare x y); try apply Permutation_refl.
    eapply Permutation_trans; [apply perm_swap |].
    apply perm_skip. exact IH.
Qed.

Lemma arraySort_perm (l : list OCIConsumptionRow) :
  Permutation l (arraySort l).
Proof.
  induction l as [| x l IH]; simpl.
  - apply perm_nil.
  - eapply Permutation_trans; [| apply insertSorted_perm].
    apply perm_skip. exact IH.
Qed.

Lemma orderly_incl (l l' : list OCIConsumptionRow) :
  (forall a, In a l' -> In a l) -> orderly l -> orderly l'.
Proof.
  intros Hin [Ht Htr]. split.
  - intros a b Ha Hb. apply Ht; auto.
  - intros a b c Ha Hb Hc. apply Htr; auto.
Qed.

Lemma insertSorted_sorted (x : OCIConsumptionRow) (l : list OCIConsumptionRow) :
  orderly (x :: l) ->
  StronglySorted notAfter l -> StronglySorted notAfter (insertSorted x l).
Proof.
  intros Hord Hs. induction Hs as [| y l Hs IH Hy]; simpl.
  - constructor; constructor.
  - destruct Hord as [Htot Htr].
    destruct (SortCompare x y) eqn:E.
    + constructor; [constructor; assumption |].
      constructor; [unfold notAfter; congruence |].
      rewrite Forall_forall in Hy |- *. intros z Hz.
      apply (Htr x y z); simpl; auto. unfold notAfter. congruence.
    + constructor; [constructor; assumption |].
      constructor; [unfold notAfter; congruence |].
      rewrite Forall_forall in Hy |- *. intros z Hz.
      apply (Htr x y z); simpl; auto. unfold notAfter. congruence.
    + constructor.
      * apply IH. apply (orderly_incl (x :: y :: l)); [| split; assumption].
        simpl. intuition.
      * rewrite Forall_forall in Hy |- *. intros z Hz.
        apply (Permutation_in _ (Permutation_sym (insertSorted_perm x l))) in Hz.
        destruct Hz as [<- | Hz]; [| auto].
        unfold notAfter. rewrite (Htot x y); simpl; auto. discriminate.
Qed.

Lemma arraySort_sorted (l : list OCIConsumptionRow) :
  orderly l -> StronglySorted notAfter (arraySort l).
Proof.
  induction l as [| x l IH]; intros Hord; simpl.
  - constructor.
  - apply insertSorted_sorted.
    + apply (orderly_incl (x :: l)); [| assumption].
      intros a [<- | Ha]; simpl; auto.
      right. apply (Permutation_in _ (Permutation_sym (arraySort_perm l))). exact Ha.
    + apply IH. apply (orderly_incl (x :: l)); simpl; auto.
Qed.

Lemma arraySort_allowed (l : list OCIConsumptionRow) :
  sortAllows l (arraySort l).
Proof.
  split; [apply arraySort_perm |].
  intros H. apply arraySort_sorted, consistent_orderly, H.
Qed.

(** ** The fold over the rows *)

(** *** Own properties *)

Lemma getOwn_None (m : SkuMap) (k : string) :
  getOwn m k = None <-> ~ In k (map fst m).
Proof.
  induction m as [| [k' r] m IH]; simpl.
  - tauto.
  - destruct (String.eqb_spec k' k) as [-> | Hne].
    + split; [discriminate | tauto].
    + rewrite IH. tauto.
Qed.

Lemma getOwn_In (m : SkuMap) (k : string) (r : OCIConsumptionRow) :
  getOwn m k = Some r -> In (k, r) m.
Proof.
  induction m as [| [k' r'] m IH]; simpl; [discriminate |].
  destruct (String.eqb_spec k' k) as [-> | Hne].
  - intros [= ->]. auto.
  - auto.
Qed.

Lemma In_getOwn (m : SkuMap) (k : string) (r : OCIConsumptionRow) :
  NoDup (map fst m) -> In (k, r) m -> getOwn m k = Some r.
Proof.
  induction m as [| [k' r'] m IH]; simpl; [tauto |].
  intros Hnd [[= -> ->] | Hin].
  - rewrite String.eqb_refl. reflexivity.
  - inversion Hnd as [| ? ? Hk' Hnd']; subst.
    destruct (String.eqb_spec k' k) as [-> | Hne]; [| auto].
    exfalso. apply Hk'. apply (in_map fst) in Hin. exact Hin.
Qed.

Lemma setOwn_keys (m : SkuMap) (k : string) (r : OCIConsumptionRow) :
  map fst (setOwn m k r) = map fst m.
Proof.
  induction m as [| [k' r'] m IH]; simpl; [reflexivity |].
  destruct (String.eqb k' k); simpl; [reflexivity | f_equal; exact IH].
Qed.

Lemma getOwn_setOwn (m : SkuMap) (k k' : string) (r : OCIConsumptionRow) :
  getOwn (setOwn m k r) k'
  = if String.eqb k k' then option_map (fun _ => r) (getOwn m k')
    else getOwn m k'.
Proof.
  induction m as [| [k0 r0] m IH]; simpl.
  - destruct (String.eqb k k'); reflexivity.
  - destruct (String.eqb_spec k0 k) as [-> | Hne]; simpl.
    + destruct (String.eqb k k'); reflexivity.
    + destruct (String.eqb_spec k0 k') as [-> | Hne'].
      * destruct (String.eqb_spec k k'); [congruence | reflexivity].
      * exact IH.
Qed.

Lemma setOwn_setOwn (m : SkuMap) (k : string) (r r' : OCIConsumptionRow) :
  setOwn (setOwn m k r) k r' = setOwn m k r'.
Proof.
  induction m as [| [k0 r0] m IH]; simpl; [reflexivity |].
  destruct (String.eqb k0 k) eqn:E; simpl; rewrite E; [reflexivity |].
  f_equal. exact IH.
Qed.

Lemma getOwn_app (m : SkuMap) (k k' : string) (r : OCIConsumptionRow) :
  getOwn (m ++ [(k, r)]) k'
  = match getOwn m k' with
    | Some x => Some x
    | None => if String.eqb k k' then Some r else None
    end.
Proof.
  induction m as [| [k0 r0] m IH]; simpl; [reflexivity |].
  destruct (String.eqb k0 k'); [reflexivity | exact IH].
Qed.

(** *** The callback and the own properties *)


Lemma getInherited_shadowed (rlm : Realm) (k : string) :
  shadowed k = true ->
  getInherited rlm k = ObjectPrototype \/ getInherited rlm k = BuiltinFunction.
Proof.
  unfold shadowed, getInherited. intros H.
  destruct (String.eqb k "__proto__"); [auto |].
  change (existsb (String.eqb k) builtinFunctionNames = true) in H.
  rewrite H. auto.
Qed.

Lemma getInherited_unshadowed (rlm : Realm) (k : string) :
  realmOK rlm = true -> shadowed k = false ->
  ToBoolean (getInherited rlm k) = false.
Proof.
  unfold shadowed, getInherited, realmOK. intros Hok H.
  apply andb_prop in Hok as [Hu Hc].
  apply orb_false_elim in H as [-> ->].
  destruct (String.eqb k "usageAmount").
  - destruct (ObjectPrototype_usageAmount rlm) as [[] |]; simpl in *; congruence.
  - destruct (String.eqb k "cost"); [| reflexivity].
    destruct (ObjectPrototype_cost rlm) as [[] |]; simpl in *; congruence.
Qed.

Lemma addToPrototype_ok (f : field) (rlm : Realm) (v : Number) :
  realmOK rlm = true -> realmOK (addToPrototype f rlm v) = true.
Proof.
  unfold realmOK. intros H. apply andb_prop in H as [Hu Hc].
  destruct f; simpl; apply andb_true_intro; split; try assumption.
  - destruct (ObjectPrototype_usageAmount rlm) as [[] |]; simpl in *;
      congruence.
  - destruct (ObjectPrototype_cost rlm) as [[] |]; simpl in *; congruence.
Qed.

Lemma getInherited_prototype (rlm rlm' : Realm) (k : string) :
  getInherited rlm k = ObjectPrototype -> getInherited rlm' k = ObjectPrototype.
Proof.
  unfold getInherited.
  destruct (String.eqb k "__proto__"); [reflexivity |].
  destruct (existsb _ builtinFunctionNames); [discriminate |].
  destruct (String.eqb k "usageAmount");
    [destruct (ObjectPrototype_usageAmount rlm); discriminate |].
  destruct (String.eqb k "cost");
    [destruct (ObjectPrototype_cost rlm); discriminate | discriminate].
Qed.

Lemma compoundAdd_own (f : field) (k : string) (v : Number) (rlm : Realm)
    (m : SkuMap) (r : OCIConsumptionRow) :
  getOwn m k = Some r ->
  compoundAdd f k v (rlm, m) = Normal (rlm, setOwn m k (addToRow f r v)).
Proof. intros H. unfold compoundAdd, get. rewrite H. reflexivity. Qed.

Lemma compoundAdd_prototype (f : field) (k : string) (v : Number)
    (rlm : Realm) (m : SkuMap) :
  getOwn m k = None -> getInherited rlm k = ObjectPrototype ->
  compoundAdd f k v (rlm, m) = Normal (addToPrototype f rlm v, m).
Proof. intros H E. unfold compoundAdd, get. rewrite H, E. reflexivity. Qed.

Lemma compoundAdd_builtin (f : field) (k : string) (v : Number)
    (rlm : Realm) (m : SkuMap) :
  getOwn m k = None -> getInherited rlm k = BuiltinFunction ->
  compoundAdd f k v (rlm, m) = Normal (rlm, m).
Proof. intros H E. unfold compoundAdd, get. rewrite H, E. reflexivity. Qed.

Lemma accumulate_stepMap (f : RowFields) (rlm : Realm) (m : SkuMap) :
  realmOK rlm = true ->
  exists rlm', accumulate f (rlm, m) = Normal (rlm', stepMap m f)
               /\ realmOK rlm' = true.
Proof.
  intros Hok. unfold accumulate, stepMap.
  destruct (getOwn m (skuId f)) as [r |] eqn:Eown.
  - exists rlm. split; [| assumption].
    unfold get at 1. rewrite Eown. cbn [ToBoolean].
    rewrite (compoundAdd_own _ _ _ _ _ _ Eown). cbn [bind].
    erewrite compoundAdd_own
      by (rewrite getOwn_setOwn, String.eqb_refl, Eown; reflexivity).
    rewrite setOwn_setOwn. reflexivity.
  - unfold get at 1. rewrite Eown.
    destruct (shadowed (skuId f)) eqn:Esh.
    + destruct (getInherited_shadowed rlm (skuId f) Esh) as [E | E].
      * exists (addToPrototype Cost (addToPrototype UsageAmount rlm (usage f))
                  (rowCost f)).
        split; [| auto using addToPrototype_ok].
        rewrite E. cbn [ToBoolean].
        rewrite (compoundAdd_prototype _ _ _ _ _ Eown E). cbn [bind].
        rewrite (compoundAdd_prototype _ _ _ _ _ Eown
                   (getInherited_prototype _ _ _ E)).
        reflexivity.
      * exists rlm. split; [| assumption].
        rewrite E. cbn [ToBoolean].
        rewrite (compoundAdd_builtin _ _ _ _ _ Eown E). cbn [bind].
        rewrite (compoundAdd_builtin _ _ _ _ _ Eown E). reflexivity.
    + exists rlm. split; [| assumption].
      rewrite (getInherited_unshadowed rlm _ Hok Esh). reflexivity.
Qed.

Lemma forEach_fold (rows : list (list string)) : forall rlm m,
  realmOK rlm = true ->
  exists rlm', forEach callback rows (rlm, m)
               = Normal (rlm', fold_left stepMap (fieldsOf rows) m)
               /\ realmOK rlm' = true.
Proof.
  induction rows as [| row rows IH]; intros rlm m Hok; cbn [forEach fieldsOf].
  - exists rlm. auto.
  - unfold callback at 1. destruct (rowFields row) as [f |].
    + destruct (accumulate_stepMap f rlm m Hok) as (rlm1 & E & Hok1).
      rewrite E. cbn [bind fold_left]. apply IH. exact Hok1.
    + cbn [bind]. apply IH. exact Hok.
Qed.

Lemma selectRows_rowsOf (data : list (list string)) :
  data <> [] -> selectRows data = Normal (rowsOf data).
Proof. destruct data as [| first rest]; [congruence | reflexivity]. Qed.

Lemma aggregate_empty (rlm : Realm) : aggregate rlm [] = Normal (rlm, None).
Proof. reflexivity. Qed.

Lemma aggregate_nonempty (rlm : Realm) (data : list (list string)) :
  realmOK rlm = true -> data <> [] ->
  exists rlm', aggregate rlm data = Normal (rlm', Some (finalMap data))
               /\ realmOK rlm' = true.
Proof.
  intros Hok Hne. unfold aggregate.
  replace (Z.of_nat (List.length data) =? 0) with false
    by (symmetry; apply Z.eqb_neq; destruct data; simpl List.length;
        [congruence | lia]).
  rewrite selectRows_rowsOf by assumption. cbn [bind].
  destruct (forEach_fold (rowsOf data) rlm [] Hok) as (rlm' & E & Hok').
  exists rlm'. split; [| assumption].
  etransitivity; [apply (f_equal (fun c => bind c _) E) |]. reflexivity.
Qed.

Lemma processCSVData_empty (rlm : Realm) :
  processCSVData rlm [] = Normal (rlm, NoUpdate).
Proof. reflexivity. Qed.

Lemma processCSVData_nonempty (rlm : Realm) (data : list (list string)) :
  realmOK rlm = true -> data <> [] ->
  exists rlm', processCSVData rlm data
               = Normal (rlm', Update (arraySort (ObjectValues (finalMap data))))
               /\ realmOK rlm' = true.
Proof.
  intros Hok Hne. unfold processCSVData.
  destruct (aggregate_nonempty rlm data Hok Hne) as (rlm' & E & Hok').
  rewrite E. cbn [bind fst snd]. exists rlm'. auto.
Qed.

Lemma reachable_ok (rlm : Realm) : reachable rlm -> realmOK rlm = true.
Proof.
  induction 1 as [| rlm rlm' data out _ IH E]; [reflexivity |].
  destruct data as [| first rest].
  - rewrite processCSVData_empty in E. congruence.
  - destruct (processCSVData_nonempty rlm (first :: rest) IH ltac:(discriminate))
      as (rlm1 & E1 & Hok1).
    congruence.
Qed.

(** *** What the fold leaves in [skuMap] *)

Lemma merge_summary (first : RowFields) (later : list RowFields) (f : RowFields) :
  merge (summary first later) f = summary first (later ++ [f]).
Proof.
  unfold merge, summary. simpl. rewrite !map_app, !fold_left_app. reflexivity.
Qed.

Lemma group_app (k : string) (fs fs' : list RowFields) :
  group k (fs ++ fs') = group k fs ++ group k fs'.
Proof. apply filter_app. Qed.

Lemma group_skuId (k : string) (fs : list RowFields) (f : RowFields) :
  In f (group k fs) -> skuId f = k.
Proof.
  unfold group. rewrite filter_In. intros [_ H].
  apply String.eqb_eq. exact H.
Qed.

Lemma expected_snoc_same (fs : list RowFields) (f : RowFields) :
  shadowed (skuId f) = false ->
  expected (skuId f) (fs ++ [f])
  = match expected (skuId f) fs with
    | Some r => Some (merge r f)
    | None => Some (newRow f)
    end.
Proof.
  intros Hsh. unfold expected. rewrite Hsh, group_app.
  unfold group at 2. simpl. rewrite String.eqb_refl.
  destruct (group (skuId f) fs) as [| first later]; simpl.
  - reflexivity.
  - rewrite merge_summary. reflexivity.
Qed.

Lemma expected_snoc_other (k : string) (fs : list RowFields) (f : RowFields) :
  skuId f <> k -> expected k (fs ++ [f]) = expected k fs.
Proof.
  intros Hne. unfold expected. rewrite group_app.
  unfold group at 2. simpl.
  destruct (String.eqb_spec (skuId f) k); [contradiction |].
  rewrite app_nil_r. reflexivity.
Qed.

Lemma expected_shadowed (k : string) (fs : list RowFields) :
  shadowed k = true -> expected k fs = None.
Proof. intros H. unfold expected. rewrite H. reflexivity. Qed.

Lemma fold_stepMap_expected (fs : list RowFields) :
  NoDup (map fst (fold_left stepMap fs []))
  /\ forall k, getOwn (fold_left stepMap fs []) k = expected k fs.
Proof.
  induction fs as [| f fs [IHnd IH]] using rev_ind.
  - split; [constructor |]. intros k. unfold expected.
    destruct (shadowed k); reflexivity.
  - rewrite fold_left_app. cbn [fold_left].
    set (m := fold_left stepMap fs []) in *.
    unfold stepMap. destruct (getOwn m (skuId f)) as [r |] eqn:Eown.
    + assert (Hsh : shadowed (skuId f) = false).
      { rewrite IH in Eown. unfold expected in Eown.
        destruct (shadowed (skuId f)); [discriminate | reflexivity]. }
      split; [rewrite setOwn_keys; exact IHnd |].
      intros k. rewrite getOwn_setOwn.
      destruct (String.eqb_spec (skuId f) k) as [<- | Hne].
      * rewrite (expected_snoc_same fs f Hsh), <- IH, Eown. reflexivity.
      * rewrite (expected_snoc_other k fs f Hne). apply IH.
    + destruct (shadowed (skuId f)) eqn:Hsh.
      * split; [exact IHnd |]. intros k.
        destruct (String.eqb_spec (skuId f) k) as [<- | Hne].
        -- rewrite Eown, expected_shadowed by assumption. reflexivity.
        -- rewrite (expected_snoc_other k fs f Hne). apply IH.
      * split.
        -- rewrite map_app. simpl.
           apply NoDup_app; [exact IHnd | repeat constructor; simpl; tauto |].
           intros k Hk [<- | []]. apply getOwn_None in Eown. contradiction.
        -- intros k. rewrite getOwn_app.
           destruct (String.eqb_spec (skuId f) k) as [<- | Hne].
           ++ rewrite (expected_snoc_same fs f Hsh), <- IH, Eown. reflexivity.
           ++ rewrite (expected_snoc_other k fs f Hne), <- IH.
              destruct (getOwn m k); reflexivity.
Qed.

(** *** [Object.values] permutes the own values *)

Lemma insertIndex_perm (e : Z * OCIConsumptionRow) (l : list (Z * OCIConsumptionRow)) :
  Permutation (e :: l) (insertIndex e l).
Proof.
  induction l as [| e' l IH]; simpl.
  - apply Permutation_refl.
  - destruct (fst e <=? fst e'); [apply Permutation_refl |].
    eapply Permutation_trans; [apply perm_swap |]. apply perm_skip. exact IH.
Qed.

Lemma ObjectValues_perm (m : SkuMap) :
  Permutation (map snd m) (ObjectValues m).
Proof.
  unfold ObjectValues. induction m as [| [k r] m IH]; simpl.
  - apply perm_nil.
  - destruct (arrayIndex k) as [i |].
    + eapply Permutation_trans; [apply perm_skip, IH |].
      change (Permutation
                (map snd ((i, r) :: indexProperties m) ++ stringProperties m)
                (map snd (insertIndex (i, r) (indexProperties m))
                   ++ stringProperties m)).
      apply Permutation_app_tail, Permutation_map, insertIndex_perm.
    + eapply Permutation_trans; [apply perm_skip, IH |].
      apply Permutation_middle.
Qed.

Lemma output_perm (m : SkuMap) :
  Permutation (map snd m) (arraySort (ObjectValues m)).
Proof.
  eapply Permutation_trans; [apply ObjectValues_perm | apply arraySort_perm].
Qed.

(** *** The items of the output *)

Lemma expected_sku (k : string) (fs : list RowFields) (it : OCIConsumptionRow) :
  expected k fs = Some it -> sku it = k.
Proof.
  unfold expected. destruct (shadowed k); [discriminate |].
  destruct (group k fs) as [| first later] eqn:E; [discriminate |].
  intros [= <-]. simpl. apply (group_skuId k fs). rewrite E. simpl. auto.
Qed.

Lemma finalMap_entries (data : list (list string)) (k : string)
    (it : OCIConsumptionRow) :
  In (k, it) (finalMap data) <-> expected k (fieldsOf (rowsOf data)) = Some it.
Proof.
  unfold finalMap.
  destruct (fold_stepMap_expected (fieldsOf (rowsOf data))) as [Hnd H].
  rewrite <- H. split; [apply In_getOwn; exact Hnd | apply getOwn_In].
Qed.

Lemma finalMap_keys (data : list (list string)) :
  map sku (map snd (finalMap data)) = map fst (finalMap data).
Proof.
  assert (H : forall k it, In (k, it) (finalMap data) -> sku it = k).
  { intros k it Hin. apply finalMap_entries in Hin.
    eapply expected_sku; eassumption. }
  induction (finalMap data) as [| [k it] m IH]; simpl; [reflexivity |].
  f_equal; [apply H; simpl; auto | apply IH; intros; apply H; simpl; auto].
Qed.

Lemma output_items (data : list (list string)) (it : OCIConsumptionRow) :
  In it (arraySort (ObjectValues (finalMap data)))
  <-> expected (sku it) (fieldsOf (rowsOf data)) = Some it.
Proof.
  split.
  - intros Hin.
    apply (Permutation_in _ (Permutation_sym (output_perm (finalMap data)))) in Hin.
    apply in_map_iff in Hin as [[k it'] [Heq Hin]]. simpl in Heq. subst it'.
    apply finalMap_entries in Hin.
    rewrite (expected_sku _ _ _ Hin). exact Hin.
  - intros H. apply finalMap_entries in H.
    apply (Permutation_in _ (output_perm (finalMap data))).
    apply in_map_iff. exists (sku it, it). auto.
Qed.

Lemma output_NoDup (data : list (list string)) :
  NoDup (map sku (arraySort (ObjectValues (finalMap data)))).
Proof.
  apply (Permutation_NoDup (l := map sku (map snd (finalMap data)))).
  - apply Permutation_map, output_perm.
  - rewrite finalMap_keys. unfold finalMap.
    apply (fold_stepMap_expected (fieldsOf (rowsOf data))).
Qed.

Lemma expected_keys (k : string) (fs : list RowFields) :
  (exists it, expected k fs = Some it)
  <-> In k (map skuId fs) /\ shadowed k = false.
Proof.
  unfold expected. split.
  - intros [it H]. destruct (shadowed k); [discriminate |].
    split; [| reflexivity].
    destruct (group k fs) as [| first later] eqn:E; [discriminate |].
    assert (Hin : In first (group k fs)) by (rewrite E; simpl; auto).
    rewrite <- (group_skuId k fs first Hin).
    apply in_map. unfold group in Hin. apply filter_In in Hin. tauto.
  - intros [Hin ->]. apply in_map_iff in Hin as [f [<- Hf]].
    destruct (group (skuId f) fs) as [| first later] eqn:E.
    + exfalso. assert (In f (group (skuId f) fs)) as H.
      { unfold group. apply filter_In. split; [exact Hf | apply String.eqb_refl]. }
      rewrite E in H. exact H.
    + eexists. reflexivity.
Qed.

(** *** Sums from zero *)

Lemma add_zero_orZero (x : Number) : add zero (orZero x) = orZero x.
Proof. destruct x as [[] | [] | | [] m e]; reflexivity. Qed.

Lemma fieldsOf_In (rows : list (list string)) (f : RowFields) :
  In f (fieldsOf rows) <-> exists row, In row rows /\ rowFields row = Some f.
Proof.
  induction rows as [| row rows IH]; simpl.
  - split; [tauto | intros [row [[] _]]].
  - destruct (rowFields row) as [f' |] eqn:E; simpl; rewrite IH; split.
    + intros [<- | [row' [Hin H]]]; [exists row; auto | exists row'; auto].
    + intros [row' [[<- | Hin] H]]; [left; congruence | right; exists row'; auto].
    + intros [row' [Hin H]]. exists row'; auto.
    + intros [row' [[<- | Hin] H]]; [congruence | exists row'; auto].
Qed.

Lemma rowFields_numbers (row : list string) (f : RowFields) :
  rowFields row = Some f ->
  usage f = orZero (parseFloat (nth_error row 4))
  /\ rowCost f = orZero (parseFloat (nth_error row 8))
  /\ unitCell f = nth_error row 3.
Proof.
  unfold rowFields. destruct (Z.of_nat (List.length row) <? 9); [discriminate |].
  destruct (nth_error row 2) as [[| c s] |]; try discriminate.
  intros [= <-]. simpl. auto.
Qed.

Lemma total_group (g : RowFields -> Number) (first : RowFields)
    (later : list RowFields) :
  add zero (g first) = g first ->
  total g (first :: later) = fold_left add (map g later) (g first).
Proof. intros H. unfold total. cbn [map fold_left]. rewrite H. reflexivity. Qed.

Lemma fold_add_valid (l : list Number) : forall x,
  valid x = true -> Forall (fun y => valid y = true) l ->
  valid (fold_left add l x) = true.
Proof.
  induction l as [| y l IH]; intros x Hx Hl; cbn [fold_left]; [exact Hx |].
  inversion Hl; subst. apply IH; [apply add_valid |]; assumption.
Qed.

Lemma rowFields_valid (row : list string) (f : RowFields) :
  rowFields row = Some f ->
  valid (usage f) = true /\ valid (rowCost f) = true.
Proof.
  intros H. destruct (rowFields_numbers row f H) as (-> & -> & _).
  split; apply orZero_valid, parseFloat_valid.
Qed.

Lemma group_valid (rows : list (list string)) (k : string) (f : RowFields) :
  In f (group k (fieldsOf rows)) ->
  valid (usage f) = true /\ valid (rowCost f) = true.
Proof.
  intros Hf. unfold group in Hf. apply filter_In in Hf as [Hf _].
  apply fieldsOf_In in Hf as [row [_ Hrow]].
  apply (rowFields_valid row f Hrow).
Qed.

Lemma expected_valid (rows : list (list string)) (k : string)
    (it : OCIConsumptionRow) :
  expected k (fieldsOf rows) = Some it ->
  valid (usageAmount it) = true /\ valid (cost it) = true.
Proof.
  unfold expected. destruct (shadowed k); [discriminate |].
  destruct (group k (fieldsOf rows)) as [| first later] eqn:E; [discriminate |].
  intros [= <-]. cbn [summary usageAmount cost].
  assert (Hall : forall f, In f (first :: later) ->
                   valid (usage f) = true /\ valid (rowCost f) = true).
  { intros f Hf. rewrite <- E in Hf. apply (group_valid rows k f Hf). }
  split; (apply fold_add_valid; [apply Hall; simpl; auto |]);
    apply Forall_forall; intros y Hy; apply in_map_iff in Hy as [f [<- Hf]];
    apply Hall; simpl; auto.
Qed.

Lemma output_valid (data : list (list string)) (it : OCIConsumptionRow) :
  In it (arraySort (ObjectValues (finalMap data))) ->
  valid (usageAmount it) = true /\ valid (cost it) = true.
Proof.
  intros H. apply output_items in H.
  eapply expected_valid; eassumption.
Qed.

(** ** Finite amounts make the comparator consistent *)

Lemma signed_not_NaN (s : bool) (x : Number) : signed s x -> isNaN x = false.
Proof. destruct x; simpl; intros H; (contradiction || reflexivity). Qed.

Lemma sub_finite_compare (x y : Number) :
  wellFormed x = true -> wellFormed y = true ->
  isFinite x = true -> isFinite y = true ->
  isNaN (sub y x) = false /\ signOf (sub y x) = (scaled y ?= scaled x).
Proof.
  intros Wx Wy Fx Fy.
  destruct x as [sx | sx | | sx mx ex]; try discriminate;
  destruct y as [sy | sy | | sy my ey]; try discriminate.
  - destruct sx, sy; split; reflexivity.
  - simpl in Wy. apply Z.leb_le in Wy.
    change (scaled (S754_zero sx)) with 0.
    rewrite (scaled_finite_sign sy my ey Wy). split; reflexivity.
  - simpl in Wx. apply Z.leb_le in Wx.
    change (scaled (S754_zero sy)) with 0.
    rewrite Z.compare_antisym, (scaled_finite_sign sx mx ex Wx).
    destruct sx; split; reflexivity.
  - simpl in Wx, Wy. apply Z.leb_le in Wx, Wy. split.
    + unfold sub, SFsub.
      pose proof (binary_normalize_sign
                    (cond_Zopp sy (Zpos (fst (shl_align my ey (Z.min ey ex))))
                     - cond_Zopp sx (Zpos (fst (shl_align mx ex (Z.min ey ex)))))
                    (Z.min ey ex) ltac:(lia)) as H.
      destruct (_ - _); [rewrite H; reflexivity | |];
        eapply signed_not_NaN; exact H.
    + apply sub_finite_sign; assumption.
Qed.

Lemma finite_consistent (l : list OCIConsumptionRow) :
  Forall (fun it => valid (cost it) = true /\ isFinite (cost it) = true) l ->
  consistent l.
Proof.
  intros H. rewrite Forall_forall in H.
  assert (Hc : forall a b, In a l -> In b l ->
            isNaN (compareFn a b) = false
            /\ SortCompare a b = (scaled (cost b) ?= scaled (cost a))).
  { intros a b Ha Hb. destruct (H a Ha) as [Wa Fa], (H b Hb) as [Wb Fb].
    apply sub_finite_compare; auto using valid_wellFormed. }
  repeat split.
  - intros a b Ha Hb. apply Hc; assumption.
  - intros a Ha. destruct (Hc a a Ha Ha) as [_ ->]. apply Z.compare_refl.
  - intros a b Ha Hb. destruct (Hc a b Ha Hb) as [_ ->], (Hc b a Hb Ha) as [_ ->].
    rewrite !Z.compare_eq_iff. congruence.
  - intros o a b c Ha Hb Hc'.
    destruct (Hc a b Ha Hb) as [_ ->], (Hc b c Hb Hc') as [_ ->],
             (Hc a c Ha Hc') as [_ ->].
    destruct o; intros H1 H2.
    + rewrite Z.compare_eq_iff in *. congruence.
    + rewrite Z.compare_lt_iff in *. lia.
    + rewrite Z.compare_gt_iff in *. lia.
Qed.

Lemma isFinite_not_NaN (x : Number) : isFinite x = true -> isNaN x = false.
Proof. destruct x; simpl; congruence. Qed.

Lemma sorted_nonIncreasing (l : list OCIConsumptionRow) :
  Forall comparable l ->
  StronglySorted notAfter l -> nonIncreasingThroughout l.
Proof.
  intros Hc Hs. unfold nonIncreasingThroughout.
  induction Hs as [| a l Hs IH Ha]; [constructor |].
  inversion Hc as [| ? ? Ca Cl]; subst.
  constructor; [apply IH; exact Cl |].
  rewrite Forall_forall in Ha, Cl |- *. intros b Hb.
  apply (notAfter_numberGe a b Ca (Cl b Hb)). apply Ha. exact Hb.
Qed.

(** ** Skipped rows *)

Lemma rowFields_None (row : list string) :
  rowFields row = None
  <-> (List.length row < 9)%nat \/ nth_error row 2 = Some EmptyString.
Proof.
  unfold rowFields.
  destruct (Z.ltb_spec (Z.of_nat (List.length row)) 9) as [Hlt | Hge].
  - split; [intros _; left; lia | reflexivity].
  - destruct (nth_error row 2) as [[| c s] |] eqn:E.
    + split; [auto | reflexivity].
    + split; [discriminate | intros [Hl | [=]]; lia].
    + apply nth_error_None in E. split; [intros _; left; lia | reflexivity].
Qed.

Lemma forEach_app {S A : Type} (f : S -> A -> completion S) (l1 l2 : list A) :
  forall s, forEach f (l1 ++ l2) s = (s' <- forEach f l1 s ;; forEach f l2 s').
Proof.
  induction l1 as [| x l1 IH]; intros s; simpl; [reflexivity |].
  destruct (f s x) as [s1 |]; simpl; [apply IH | reflexivity].
Qed.

Lemma forEach_skip (row : list string) (before after : list (list string))
    (st : Realm * SkuMap) :
  rowFields row = None ->
  forEach callback (before ++ row :: after) st
  = forEach callback (before ++ after) st.
Proof.
  intros H. rewrite !forEach_app.
  destruct (forEach callback before st) as [st' |]; simpl; [| reflexivity].
  unfold callback at 1. rewrite H. reflexivity.
Qed.

(** ** The split of the description cell *)




(* ================================================================== *)
(** * Part IV: the properties of the aggregation                        *)
(* ================================================================== *)

Lemma processCSVData_Update (rlm rlm' : Realm) (data : list (list string))
    (out : list OCIConsumptionRow) :
  realmOK rlm = true ->
  processCSVData rlm data = Normal (rlm', Update out) ->
  data <> [] /\ out = arraySort (ObjectValues (finalMap data)).
Proof.
  intros Hok H. destruct data as [| first rest].
  - rewrite processCSVData_empty in H. discriminate.
  - split; [discriminate |].
    destruct (processCSVData_nonempty rlm (first :: rest) Hok ltac:(discriminate))
      as (rlm1 & E & _).
    congruence.
Qed.

Lemma fields_total (rows : list (list string)) (k : string)
    (it : OCIConsumptionRow) :
  expected k (fieldsOf rows) = Some it ->
  usageAmount it = total usage (group k (fieldsOf rows))
  /\ cost it = total rowCost (group k (fieldsOf rows)).
Proof.
  unfold expected. destruct (shadowed k); [discriminate |].
  destruct (group k (fieldsOf rows)) as [| first later] eqn:E; [discriminate |].
  intros [= <-]. simpl.
  assert (Hin : In first (fieldsOf rows)).
  { assert (In first (group k (fieldsOf rows))) as H by (rewrite E; simpl; auto).
    unfold group in H. apply filter_In in H. tauto. }
  apply fieldsOf_In in Hin as [row [_ Hrow]].
  destruct (rowFields_numbers row first Hrow) as (Hu & Hc & _).
  split; rewrite total_group; try reflexivity.
  - rewrite Hu. apply add_zero_orZero.
  - rewrite Hc. apply add_zero_orZero.
Qed.

(** Every id that does not name an inherited property of a plain object
    and occurs in a row that passes lines 73-75 has exactly one item, and
    the item's quantity and amount are the sums, in row order, of the
    quantities and amounts of the rows with that id. *)
Theorem aggregation_by_id (rlm : Realm) (data : list (list string)) :
  reachable rlm -> data <> [] ->
  exists rlm' out,
    processCSVData rlm data = Normal (rlm', Update out)
    /\ NoDup (map sku out)
    /\ (forall k, In k (map sku out)
          <-> In k (map skuId (fieldsOf (rowsOf data))) /\ shadowed k = false)
    /\ (forall it, In it out ->
          usageAmount it = total usage (group (sku it) (fieldsOf (rowsOf data)))
          /\ cost it = total rowCost (group (sku it) (fieldsOf (rowsOf data)))).
Proof.
  intros Hr Hne. apply reachable_ok in Hr.
  destruct (processCSVData_nonempty rlm data Hr Hne) as (rlm' & E & _).
  exists rlm', (arraySort (ObjectValues (finalMap data))).
  split; [exact E |]. split; [apply output_NoDup |]. split.
  - intros k. rewrite <- expected_keys. rewrite in_map_iff. split.
    + intros [it [<- Hin]]. exists it. apply output_items. exact Hin.
    + intros [it H]. exists it.
      pose proof (expected_sku _ _ _ H) as Hk. subst k.
      split; [reflexivity | apply output_items; exact H].
  - intros it Hin. apply output_items in Hin. apply fields_total. exact Hin.
Qed.

Lemma aggregation_by_id_witness :
  exists rlm' out,
    processCSVData initialRealm
      [ [""; ""; "A - a"; "U"; "1"; ""; ""; ""; "2"];
        [""; ""; "A - a"; "U"; "3"; ""; ""; ""; "4"] ]
    = Normal (rlm', Update out)
    /\ NoDup (map sku out)
    /\ (forall k, In k (map sku out)
          <-> In k (map skuId (fieldsOf (rowsOf
                  [ [""; ""; "A - a"; "U"; "1"; ""; ""; ""; "2"];
                    [""; ""; "A - a"; "U"; "3"; ""; ""; ""; "4"] ])))
              /\ shadowed k = false)
    /\ (forall it, In it out ->
          usageAmount it = total usage (group (sku it) (fieldsOf (rowsOf
                  [ [""; ""; "A - a"; "U"; "1"; ""; ""; ""; "2"];
                    [""; ""; "A - a"; "U"; "3"; ""; ""; ""; "4"] ])))
          /\ cost it = total rowCost (group (sku it) (fieldsOf (rowsOf
                  [ [""; ""; "A - a"; "U"; "1"; ""; ""; ""; "2"];
                    [""; ""; "A - a"; "U"; "3"; ""; ""; ""; "4"] ])))).
Proof.
  apply (aggregation_by_id initialRealm); [apply reach_initial | discriminate].
Defined.


(** Every quantity and amount of the output is a valid binary64 value:
    the sums never leave the format. *)
Theorem amounts_are_valid (rlm rlm' : Realm) (data : list (list string))
    (out : list OCIConsumptionRow) :
  reachable rlm ->
  processCSVData rlm data = Normal (rlm', Update out) ->
  Forall (fun it => valid (usageAmount it) = true /\ valid (cost it) = true)
    out.
Proof.
  intros Hr Hrun. apply reachable_ok in Hr.
  destruct (processCSVData_Update rlm rlm' data out Hr Hrun) as [_ ->].
  apply Forall_forall. intros it Hin. apply (output_valid data it Hin).
Qed.

Lemma amounts_are_valid_witness :
  Forall (fun it => valid (usageAmount it) = true /\ valid (cost it) = true)
    [ {| sku := "A"; productName := "a";
         usageAmount := ofDecimal false 30000000000000004 (-17);
         unit := Some "U"; cost := S754_infinity false |} ].
Proof.
  apply (amounts_are_valid initialRealm initialRealm
           [ [""; ""; "A - a"; "U"; "0.1"; ""; ""; ""; "1e308"];
             [""; ""; "A - a"; "U"; "0.2"; ""; ""; ""; "1e308"] ]).
  - apply reach_initial.
  - vm_compute. reflexivity.
Defined.

(** C1 (the code misses a case): a row whose id names an inherited property
    of a plain object, here [constructor], passes lines 73-75, and the
    output holds no item for it. *)
Theorem C1_inherited_id_has_no_item :
  rowFields [""; ""; "constructor - Y"; "U"; "1"; ""; ""; ""; "2"]
  = Some {| skuId := "constructor"; name := "Y"; unitCell := Some "U";
            usage := ofDecimal false 1 0; rowCost := ofDecimal false 2 0 |}
  /\ processCSVData initialRealm
       [ [""; ""; "constructor - Y"; "U"; "1"; ""; ""; ""; "2"] ]
     = Normal (initialRealm, Update []).
Proof. split; vm_compute; reflexivity. Qed.

(** ** C2 *)






(** ** C3 *)

Lemma processCSVData_skip (rlm : Realm) (first row : list string)
    (before after : list (list string)) :
  rowFields row = None ->
  processCSVData rlm (first :: before ++ row :: after)
  = processCSVData rlm (first :: before ++ after).
Proof.
  intros H. unfold processCSVData, aggregate.
  cbn [List.length]. 
  replace (Z.of_nat (S (List.length (before ++ row :: after))) =? 0) with false
    by (symmetry; apply Z.eqb_neq; lia).
  replace (Z.of_nat (S (List.length (before ++ after))) =? 0) with false
    by (symmetry; apply Z.eqb_neq; lia).
  unfold selectRows. cbn [nth_error bind skipn].
  destruct (isHeader first).
  - rewrite (forEach_skip row before after _ H). reflexivity.
  - rewrite (forEach_skip row (first :: before) after _ H). reflexivity.
Qed.

(** C3 (counterexample): a description cell of three spaces is empty after
    trimming, yet the row is not skipped: it yields an item with the empty
    id. *)
Lemma C3_whitespace_description_is_processed :
  trim "   " = EmptyString
  /\ rowFields [""; ""; "   "; "U"; "1"; ""; ""; ""; "2"]
     = Some {| skuId := EmptyString; name := EmptyString;
               unitCell := Some "U";
               usage := ofDecimal false 1 0; rowCost := ofDecimal false 2 0 |}
  /\ processCSVData initialRealm
       [ [""; ""; "   "; "U"; "1"; ""; ""; ""; "2"] ]
     = Normal (initialRealm,
               Update [ {| sku := EmptyString; productName := EmptyString;
                           usageAmount := ofDecimal false 1 0;
                           unit := Some "U";
                           cost := ofDecimal false 2 0 |} ]).
Proof. repeat split; vm_compute; reflexivity. Qed.

(** C3 (amended): the callback returns early exactly for the rows with
    fewer than 9 cells (the empty row among them) and the rows whose
    description cell is the empty string; such a row changes nothing, and
    the call gives the same result without it; every other row reaches
    lines 77-89. *)
Theorem C3_skipped_rows :
  (forall row,
     rowFields row = None
     <-> (List.length row < 9)%nat \/ nth_error row 2 = Some EmptyString)
  /\ (forall row st, rowFields row = None -> callback st row = Normal st)
  /\ (forall rlm first before row after,
        rowFields row = None ->
        processCSVData rlm (first :: before ++ row :: after)
        = processCSVData rlm (first :: before ++ after))
  /\ (forall row,
        rowFields row <> None ->
        exists f, rowFields row = Some f
                  /\ forall st, callback st row = accumulate f st).
Proof.
  split; [exact rowFields_None |].
  split; [intros row st H; unfold callback; rewrite H; reflexivity |].
  split; [intros; apply processCSVData_skip; assumption |].
  intros row H. destruct (rowFields row) as [f |] eqn:E; [| congruence].
  exists f. split; [reflexivity |]. intros st. unfold callback. rewrite E.
  reflexivity.
Qed.

Lemma C3_witness :
  processCSVData initialRealm
    ( [""; ""; "A - a"; "U"; "1"; ""; ""; ""; "2"]
      :: [] ++ ["short"; "row"] :: [[""; ""; "B - b"; "U"; "3"; ""; ""; ""; "4"]])
  = processCSVData initialRealm
      ( [""; ""; "A - a"; "U"; "1"; ""; ""; ""; "2"]
        :: [] ++ [[""; ""; "B - b"; "U"; "3"; ""; ""; ""; "4"]]).
Proof.
  apply (proj1 (proj2 (proj2 C3_skipped_rows))).
  apply (proj1 C3_skipped_rows). left. simpl. lia.
Defined.

(** ** C4 *)

Lemma processCSVData_mayReturn (rlm rlm' : Realm) (data : list (list string))
    (o : Outcome) :
  processCSVData rlm data = Normal (rlm', o) -> mayReturn rlm data o.
Proof.
  unfold processCSVData, mayReturn.
  destruct (aggregate rlm data) as [[rlm1 r] |]; [| discriminate].
  cbn [bind fst snd]. intros H. exists rlm1, r. split; [reflexivity |].
  destruct r as [skuMap |]; injection H as _ <-; [| reflexivity].
  exists (arraySort (ObjectValues skuMap)).
  split; [apply arraySort_allowed | reflexivity].
Qed.

Lemma mayReturn_Update (rlm : Realm) (data : list (list string))
    (out : list OCIConsumptionRow) :
  realmOK rlm = true -> mayReturn rlm data (Update out) ->
  data <> [] /\ sortAllows (ObjectValues (finalMap data)) out.
Proof.
  intros Hok (rlm' & r & Hagg & Hr). destruct data as [| first rest].
  - rewrite aggregate_empty in Hagg. injection Hagg as _ <-. discriminate.
  - split; [discriminate |].
    destruct (aggregate_nonempty rlm (first :: rest) Hok ltac:(discriminate))
      as (rlm1 & E & _).
    rewrite E in Hagg. injection Hagg as _ <-.
    destruct Hr as (l' & Hs & [= ->]). exact Hs.
Qed.

Lemma ObjectValues_valid (data : list (list string))
    (it : OCIConsumptionRow) :
  In it (ObjectValues (finalMap data)) -> valid (cost it) = true.
Proof.
  intros H. apply (output_valid data).
  apply (Permutation_in _ (arraySort_perm _)). exact H.
Qed.

(** C4 (counterexample): the amounts [Infinity] and [-Infinity] of one id
    add up to [NaN]; the output holds that item and one of amount 5, and no
    order of the two is non-increasing. *)
Lemma C4_NaN_amount_is_not_ordered :
  processCSVData initialRealm
    [ [""; ""; "A"; "U"; "1"; ""; ""; ""; "Infinity"];
      [""; ""; "A"; "U"; "1"; ""; ""; ""; "-Infinity"];
      [""; ""; "B"; "U"; "1"; ""; ""; ""; "5"] ]
  = Normal (initialRealm,
            Update [ {| sku := "A"; productName := "A";
                        usageAmount := ofDecimal false 2 0; unit := Some "U";
                        cost := NaN |};
                     {| sku := "B"; productName := "B";
                        usageAmount := ofDecimal false 1 0; unit := Some "U";
                        cost := ofDecimal false 5 0 |} ])
  /\ forall out,
       Permutation
         [ {| sku := "A"; productName := "A";
              usageAmount := ofDecimal false 2 0; unit := Some "U";
              cost := NaN |};
           {| sku := "B"; productName := "B";
              usageAmount := ofDecimal false 1 0; unit := Some "U";
              cost := ofDecimal false 5 0 |} ] out ->
       ~ nonIncreasing out.
Proof.
  split; [vm_compute; reflexivity |].
  intros out Hp Hs.
  pose proof (Permutation_length Hp) as Hlen.
  destruct out as [| x [| y [| z out]]]; try discriminate Hlen.
  assert (Hx : In x [x; y]) by (simpl; auto).
  assert (Hy : In y [x; y]) by (simpl; auto).
  apply (Permutation_in _ (Permutation_sym Hp)) in Hx, Hy.
  unfold nonIncreasing in Hs.
  inversion Hs as [| ? ? _ Hd]; subst. inversion Hd as [| ? ? Hle]; subst.
  assert (Hnd : NoDup [x; y]).
  { apply (Permutation_NoDup Hp).
    constructor; [simpl; intros [H | []]; discriminate H |].
    constructor; [simpl; tauto | constructor]. }
  assert (Hne : x <> y).
  { intros ->. inversion Hnd as [| ? ? Hn _]; subst. apply Hn. simpl. auto. }
  simpl in Hx, Hy.
  destruct Hx as [<- | [<- | []]], Hy as [<- | [<- | []]];
    try congruence; vm_compute in Hle; discriminate.
Qed.

(** C4 (amended): when no amount of the output is [NaN], every item's
    amount is at least the amount of every later item; and when the amounts
    are all finite this holds for whatever order a sort with a consistent
    comparator may produce. *)
Theorem C4_sorted_when_no_amount_is_NaN :
  forall rlm data,
    reachable rlm ->
    (forall rlm' out,
       processCSVData rlm data = Normal (rlm', Update out) ->
       Forall (fun it => isNaN (cost it) = false) out ->
       nonIncreasingThroughout out /\ nonIncreasing out)
    /\ (forall out,
          mayReturn rlm data (Update out) ->
          Forall (fun it => isFinite (cost it) = true) out ->
          nonIncreasingThroughout out /\ nonIncreasing out).
Proof.
  intros rlm data Hr. apply reachable_ok in Hr.
  assert (Hsorted : forall out, nonIncreasingThroughout out ->
                      nonIncreasingThroughout out /\ nonIncreasing out).
  { intros out H. split; [exact H | apply StronglySorted_Sorted, H]. }
  split.
  - intros rlm' out Hrun Hnan. apply Hsorted.
    destruct (processCSVData_Update rlm rlm' data out Hr Hrun) as [_ ->].
    assert (Hc : Forall comparable (arraySort (ObjectValues (finalMap data)))).
    { rewrite Forall_forall in Hnan |- *. intros it Hin.
      split; [apply (output_valid data), Hin | apply Hnan, Hin]. }
    apply sorted_nonIncreasing; [exact Hc |].
    apply arraySort_sorted, comparable_orderly.
    rewrite Forall_forall in Hc |- *. intros it Hin. apply Hc.
    apply (Permutation_in _ (arraySort_perm _)). exact Hin.
  - intros out Hrun Hfin. apply Hsorted.
    destruct (mayReturn_Update rlm data out Hr Hrun) as [_ [Hp Hs]].
    rewrite Forall_forall in Hfin.
    assert (Hw : forall it, In it out -> valid (cost it) = true).
    { intros it Hin. apply (ObjectValues_valid data).
      apply (Permutation_in _ (Permutation_sym Hp)). exact Hin. }
    apply sorted_nonIncreasing.
    + apply Forall_forall. intros it Hin.
      split; [apply Hw, Hin | apply isFinite_not_NaN, Hfin, Hin].
    + apply Hs, finite_consistent, Forall_forall. intros it Hin.
      apply (Permutation_in _ Hp) in Hin. auto.
Qed.

Lemma C4_witness :
  nonIncreasingThroughout
    [ {| sku := "B"; productName := "b"; usageAmount := ofDecimal false 3 0;
         unit := Some "U"; cost := ofDecimal false 4 0 |};
      {| sku := "A"; productName := "a"; usageAmount := ofDecimal false 1 0;
         unit := Some "U"; cost := ofDecimal false 2 0 |} ]
  /\ nonIncreasing
       [ {| sku := "B"; productName := "b"; usageAmount := ofDecimal false 3 0;
            unit := Some "U"; cost := ofDecimal false 4 0 |};
         {| sku := "A"; productName := "a"; usageAmount := ofDecimal false 1 0;
            unit := Some "U"; cost := ofDecimal false 2 0 |} ].
Proof.
  apply (proj1 (C4_sorted_when_no_amount_is_NaN initialRealm
           [ [""; ""; "A - a"; "U"; "1"; ""; ""; ""; "2"];
             [""; ""; "B - b"; "U"; "3"; ""; ""; ""; "4"] ] reach_initial)
           initialRealm).
  - vm_compute. reflexivity.
  - repeat constructor.
Defined.

(** ** C5 *)

Lemma isHeader_spec (first : list string) :
  isHeader first = true <-> nth_error first 0 = Some headerSentinel.
Proof.
  unfold isHeader. destruct (nth_error first 0) as [c |].
  - rewrite String.eqb_eq. split; congruence.
  - split; discriminate.
Qed.


(** C5: the first row is left out of the rows that are processed exactly
    when its first cell is the header sentinel; the rows after the first
    are all processed, also one whose first cell is the sentinel: the
    output is computed from the fields of every selected row that passes
    lines 73-75.  In the example the header occurs twice, and its second
    occurrence yields an item. *)
Theorem C5_header_only_in_first_position :
  (forall first rest,
     selectRows (first :: rest)
     = Normal (if isHeader first then rest else first :: rest))
  /\ (forall first,
        isHeader first = true
        <-> nth_error first 0 = Some "Subscription Plan Number")
  /\ (forall first rest row,
        In row rest -> In row (rowsOf (first :: rest)))
  /\ (forall rlm first rest, reachable rlm ->
        exists rlm',
          processCSVData rlm (first :: rest)
          = Normal (rlm',
              Update (arraySort (ObjectValues
                (fold_left stepMap
                   (fieldsOf (if isHeader first then rest else first :: rest))
                   [])))))
  /\ processCSVData initialRealm
       [ ["Subscription Plan Number"; ""; "Product - Name"; "Unit";
          "1"; ""; ""; ""; "2"];
         ["Subscription Plan Number"; ""; "Product - Name"; "Unit";
          "1"; ""; ""; ""; "2"] ]
     = Normal (initialRealm,
               Update [ {| sku := "Product"; productName := "Name";
                           usageAmount := ofDecimal false 1 0;
                           unit := Some "Unit";
                           cost := ofDecimal false 2 0 |} ]).
Proof.
  split; [reflexivity |].
  split; [exact isHeader_spec |].
  split.
  { intros first rest row Hin. unfold rowsOf.
    destruct (isHeader first); simpl; auto. }
  split; [| vm_compute; reflexivity].
  intros rlm first rest Hr. apply reachable_ok in Hr.
  destruct (processCSVData_nonempty rlm (first :: rest) Hr ltac:(discriminate))
    as (rlm' & E & _).
  exists rlm'. exact E.
Qed.

Lemma C5_witness :
  exists rlm',
    processCSVData initialRealm
      [ ["Subscription Plan Number"; "x"];
        ["Subscription Plan Number"; ""; "P - N"; "U"; "1"; ""; ""; ""; "2"] ]
    = Normal (rlm',
        Update (arraySort (ObjectValues
          (fold_left stepMap
             (fieldsOf
                (if isHeader ["Subscription Plan Number"; "x"]
                 then [["Subscription Plan Number"; ""; "P - N"; "U"; "1";
                        ""; ""; ""; "2"]]
                 else [ ["Subscription Plan Number"; "x"];
                        ["Subscription Plan Number"; ""; "P - N"; "U"; "1";
                         ""; ""; ""; "2"] ]))
             [])))).
Proof.
  apply (proj1 (proj2 (proj2 (proj2 C5_header_only_in_first_position)))
           initialRealm _ _ reach_initial).
Defined.

(** ** C6 *)



(** ** C7 *)

Lemma accumulate_existing (rlm : Realm) (m : SkuMap) (f : RowFields)
    (r : OCIConsumptionRow) :
  getOwn m (skuId f) = Some r ->
  accumulate f (rlm, m)
  = Normal (rlm, setOwn m (skuId f)
              {| sku := sku r; productName := productName r;
                 usageAmount := add (usageAmount r) (usage f);
                 unit := unit r;
                 cost := add (cost r) (rowCost f) |}).
Proof.
  intros Eown. unfold accumulate.
  unfold get at 1. rewrite Eown. cbn [ToBoolean].
  rewrite (compoundAdd_own _ _ _ _ _ _ Eown). cbn [bind].
  erewrite compoundAdd_own
    by (rewrite getOwn_setOwn, String.eqb_refl, Eown; reflexivity).
  rewrite setOwn_setOwn. reflexivity.
Qed.

Lemma expected_first (k : string) (fs : list RowFields)
    (it : OCIConsumptionRow) :
  expected k fs = Some it ->
  exists first later, group k fs = first :: later /\ it = summary first later.
Proof.
  unfold expected. destruct (shadowed k); [discriminate |].
  destruct (group k fs) as [| first later]; [discriminate |].
  intros [= <-]. exists first, later. auto.
Qed.

(** C7: an item of the output has the description and the unit of the
    first row with its id that passes lines 73-75, the unit being cell 3 of
    that row as it stands, and its quantity and amount are those of that row
    with those of the later rows of the id added in row order; a row whose
    id has an item already only adds its quantity and amount to it. *)
Theorem C7_first_row_fixes_unit_and_description :
  (forall rlm data rlm' out it,
     reachable rlm ->
     processCSVData rlm data = Normal (rlm', Update out) ->
     In it out ->
     exists first later,
       group (sku it) (fieldsOf (rowsOf data)) = first :: later
       /\ productName it = name first
       /\ unit it = unitCell first
       /\ usageAmount it = fold_left add (map usage later) (usage first)
       /\ cost it = fold_left add (map rowCost later) (rowCost first))
  /\ (forall row f, rowFields row = Some f -> unitCell f = nth_error row 3)
  /\ (forall rlm skuMap row f r,
        rowFields row = Some f ->
        getOwn skuMap (skuId f) = Some r ->
        callback (rlm, skuMap) row
        = Normal (rlm, setOwn skuMap (skuId f)
                    {| sku := sku r; productName := productName r;
                       usageAmount := add (usageAmount r) (usage f);
                       unit := unit r;
                       cost := add (cost r) (rowCost f) |})).
Proof.
  repeat split.
  - intros rlm data rlm' out it Hr Hrun Hin. apply reachable_ok in Hr.
    destruct (processCSVData_Update rlm rlm' data out Hr Hrun) as [_ ->].
    apply output_items in Hin.
    destruct (expected_first _ _ _ Hin) as (first & later & Hg & ->).
    exists first, later. simpl. auto.
  - intros row f Hf. apply (rowFields_numbers row f Hf).
  - intros rlm skuMap row f r Hf Hown. unfold callback. rewrite Hf.
    apply accumulate_existing. exact Hown.
Qed.

Lemma C7_witness :
  exists first later,
    group "A"
      (fieldsOf (rowsOf
         [ [""; ""; "A - one"; "U1"; "1"; ""; ""; ""; "2"];
           [""; ""; "A - two"; "U2"; "3"; ""; ""; ""; "4"] ]))
    = first :: later
    /\ "one" = name first
    /\ Some "U1" = unitCell first
    /\ ofDecimal false 4 0 = fold_left add (map usage later) (usage first)
    /\ ofDecimal false 6 0 = fold_left add (map rowCost later) (rowCost first).
Proof.
  apply (proj1 C7_first_row_fixes_unit_and_description initialRealm
           [ [""; ""; "A - one"; "U1"; "1"; ""; ""; ""; "2"];
             [""; ""; "A - two"; "U2"; "3"; ""; ""; ""; "4"] ]
           initialRealm
           [ {| sku := "A"; productName := "one";
                usageAmount := ofDecimal false 4 0; unit := Some "U1";
                cost := ofDecimal false 6 0 |} ]
           {| sku := "A"; productName := "one";
              usageAmount := ofDecimal false 4 0; unit := Some "U1";
              cost := ofDecimal false 6 0 |}
           reach_initial).
  - vm_compute. reflexivity.
  - simpl. auto.
Defined.

(** ** C8 *)

(** C8 (counterexample): on the empty row sequence the function returns at
    line 67 and updates nothing: the inventory shown before, here the sample
    data, stays in place, and it is not the empty sequence. *)
Lemma C8_empty_input_keeps_the_inventory :
  processCSVData initialRealm [] = Normal (initialRealm, NoUpdate)
  /\ consumptionDataAfter SAMPLE_DATA NoUpdate = SAMPLE_DATA
  /\ SAMPLE_DATA <> [].
Proof. repeat split. discriminate. Qed.

Lemma processCSVData_total (rlm : Realm) (data : list (list string)) :
  realmOK rlm = true ->
  exists rlm' out,
    processCSVData rlm data = Normal (rlm', out)
    /\ (data = [] -> rlm' = rlm /\ out = NoUpdate)
    /\ (data <> [] -> out = Update (arraySort (ObjectValues (finalMap data)))).
Proof.
  intros Hr. destruct data as [| first rest].
  - exists rlm, NoUpdate. split; [reflexivity |].
    split; [auto | congruence].
  - destruct (processCSVData_nonempty rlm (first :: rest) Hr ltac:(discriminate))
      as (rlm' & E & _).
    exists rlm', (Update (arraySort (ObjectValues (finalMap (first :: rest))))).
    split; [exact E |]. split; [discriminate | auto].
Qed.

(** C8 (amended): a call never throws; on the empty row sequence it
    returns early, changes nothing and leaves the inventory as it was; on
    any other row sequence it produces an inventory. *)
Theorem C8_never_throws :
  forall rlm data,
    reachable rlm ->
    exists rlm' out,
      processCSVData rlm data = Normal (rlm', out)
      /\ (data = [] ->
          rlm' = rlm /\ out = NoUpdate
          /\ forall prev, consumptionDataAfter prev out = prev)
      /\ (data <> [] ->
          out = Update (arraySort (ObjectValues (finalMap data)))
          /\ forall prev,
               consumptionDataAfter prev out
               = arraySort (ObjectValues (finalMap data))).
Proof.
  intros rlm data Hr. apply reachable_ok in Hr.
  destruct (processCSVData_total rlm data Hr) as (rlm' & out & E & He & Hn).
  exists rlm', out. split; [exact E |]. split.
  - intros H. destruct (He H) as [-> ->]. auto.
  - intros H. rewrite (Hn H). auto.
Qed.

Lemma C8_witness :
  exists rlm',
    processCSVData initialRealm [ []; ["only"; "two"] ]
    = Normal (rlm', Update []).
Proof.
  destruct (C8_never_throws initialRealm [ []; ["only"; "two"] ] reach_initial)
    as (rlm' & out & E & _ & Hne).
  exists rlm'. rewrite E.
  destruct (Hne ltac:(discriminate)) as [-> _]. reflexivity.
Defined.

(** ** C9 *)

(** C9: whatever realm earlier calls have left and whatever order the sort
    picks among the orders it may produce, two runs on the same rows yield the
    same items: both update nothing, or both produce item sequences that
    are permutations of each other; and the function's own result is such
    an outcome. *)
Theorem C9_same_items_on_every_run :
  (forall rlm1 rlm2 data o1 o2,
     reachable rlm1 -> reachable rlm2 ->
     mayReturn rlm1 data o1 -> mayReturn rlm2 data o2 ->
     sameItems o1 o2)
  /\ (forall rlm data,
        reachable rlm ->
        exists rlm' o,
          processCSVData rlm data = Normal (rlm', o) /\ mayReturn rlm data o).
Proof.
  split.
  - intros rlm1 rlm2 data o1 o2 H1 H2 R1 R2.
    apply reachable_ok in H1, H2.
    destruct data as [| first rest].
    + destruct R1 as (r1 & a1 & E1 & M1), R2 as (r2 & a2 & E2 & M2).
      rewrite aggregate_empty in E1, E2.
      injection E1 as _ <-. injection E2 as _ <-. subst. exact I.
    + destruct R1 as (r1 & a1 & E1 & M1), R2 as (r2 & a2 & E2 & M2).
      destruct (aggregate_nonempty rlm1 (first :: rest) H1 ltac:(discriminate))
        as (r1' & E1' & _).
      destruct (aggregate_nonempty rlm2 (first :: rest) H2 ltac:(discriminate))
        as (r2' & E2' & _).
      rewrite E1' in E1. rewrite E2' in E2.
      injection E1 as _ <-. injection E2 as _ <-.
      destruct M1 as (l1 & [P1 _] & ->), M2 as (l2 & [P2 _] & ->).
      simpl. eapply Permutation_trans; [apply Permutation_sym, P1 | exact P2].
  - intros rlm data Hr.
    destruct (processCSVData_total rlm data (reachable_ok rlm Hr))
      as (rlm' & o & E & _).
    exists rlm', o. split; [exact E |].
    eapply processCSVData_mayReturn. exact E.
Qed.

Lemma C9_witness :
  sameItems
    (Update [ {| sku := "A"; productName := "a";
                 usageAmount := ofDecimal false 1 0; unit := Some "U";
                 cost := ofDecimal false 2 0 |};
              {| sku := "B"; productName := "b";
                 usageAmount := ofDecimal false 3 0; unit := Some "U";
                 cost := ofDecimal false 2 0 |} ])
    (Update [ {| sku := "B"; productName := "b";
                 usageAmount := ofDecimal false 3 0; unit := Some "U";
                 cost := ofDecimal false 2 0 |};
              {| sku := "A"; productName := "a";
                 usageAmount := ofDecimal false 1 0; unit := Some "U";
                 cost := ofDecimal false 2 0 |} ]).
Proof.
  apply (proj1 C9_same_items_on_every_run
           initialRealm
           {| ObjectPrototype_usageAmount := Some NaN;
              ObjectPrototype_cost := Some NaN |}
           [ [""; ""; "A - a"; "U"; "1"; ""; ""; ""; "2"];
             [""; ""; "B - b"; "U"; "3"; ""; ""; ""; "2"] ]).
  - apply reach_initial.
  - apply (reach_call initialRealm _
             [ [""; ""; "__proto__"; "U"; "1"; ""; ""; ""; "2"] ]
             (Update []) reach_initial).
    vm_compute. reflexivity.
  - apply (processCSVData_mayReturn initialRealm initialRealm).
    vm_compute. reflexivity.
  - exists {| ObjectPrototype_usageAmount := Some NaN;
              ObjectPrototype_cost := Some NaN |}.
    exists (Some [ ("A", {| sku := "A"; productName := "a";
                            usageAmount := ofDecimal false 1 0;
                            unit := Some "U"; cost := ofDecimal false 2 0 |});
                   ("B", {| sku := "B"; productName := "b";
                            usageAmount := ofDecimal false 3 0;
                            unit := Some "U"; cost := ofDecimal false 2 0 |}) ]).
    split; [vm_compute; reflexivity |].
    eexists. split; [| reflexivity]. split.
    + apply perm_swap.
    + intros _. repeat constructor; vm_compute; discriminate.
Defined.

(** ** C10 *)




(* ================================================================== *)
(** * Part V: the rest of the application                               *)
(* ================================================================== *)

Import JSArray Types GeminiService Dashboard AppComponent Behaviour.

(** ** [slice] *)

Lemma slice_firstn {A : Type} (l : list A) (n : Z) :
  0 <= n -> slice l 0 (Some n) = firstn (Z.to_nat n) l.
Proof.
  intros Hn. unfold slice.
  replace (0 <? 0) with false by reflexivity.
  replace (n <? 0) with false by (symmetry; apply Z.ltb_ge; exact Hn).
  replace (Z.min 0 (Z.of_nat (List.length l))) with 0 by lia.
  cbn [Z.to_nat skipn]. rewrite Z.sub_0_r.
  destruct (Z.le_ge_cases n (Z.of_nat (List.length l))) as [Hle | Hge].
  - rewrite Z.min_l by exact Hle. reflexivity.
  - rewrite Z.min_r by exact Hge. rewrite Nat2Z.id.
    rewrite !firstn_all2; [reflexivity | lia | lia].
Qed.

Lemma In_firstn {A : Type} (l : list A) : forall n x,
  In x (firstn n l) -> In x l.
Proof.
  induction l as [| y l IH]; intros [| n] x H; cbn [firstn] in H;
    try contradiction.
  destruct H as [-> | H]; [left; reflexivity | right; exact (IH n x H)].
Qed.

Lemma In_skipn {A : Type} (l : list A) : forall n x,
  In x (skipn n l) -> In x l.
Proof.
  induction l as [| y l IH]; intros [| n] x H; cbn [skipn] in H;
    try assumption.
  right. exact (IH n x H).
Qed.

Lemma StronglySorted_firstn {A : Type} (R : A -> A -> Prop) (l : list A) :
  StronglySorted R l -> forall n, StronglySorted R (firstn n l).
Proof.
  induction 1 as [| x l Hs IH Hall]; intros [| n]; cbn [firstn];
    try constructor.
  - apply IH.
  - rewrite Forall_forall in *. intros y Hy. apply Hall.
    apply (In_firstn _ _ _ Hy).
Qed.

Lemma StronglySorted_split {A : Type} (R : A -> A -> Prop) (l : list A) :
  StronglySorted R l ->
  forall n a b, In a (firstn n l) -> In b (skipn n l) -> R a b.
Proof.
  induction 1 as [| x l Hs IH Hall]; intros [| n] a b Ha Hb;
    cbn [firstn skipn] in *; try contradiction.
  destruct Ha as [<- | Ha].
  - rewrite Forall_forall in Hall. apply Hall.
    apply (In_skipn _ _ _ Hb).
  - exact (IH n a b Ha Hb).
Qed.

(** ** The sort leaves a sorted array as it is *)

Lemma arraySort_fixed (l : list OCIConsumptionRow) :
  Sorted notAfter l -> arraySort l = l.
Proof.
  induction 1 as [| x l Hs IH Hhd]; [reflexivity |].
  cbn [arraySort]. rewrite IH.
  destruct Hhd as [| y l' Hxy]; [reflexivity |].
  cbn [insertSorted]. unfold notAfter in Hxy.
  destruct (SortCompare x y); congruence.
Qed.

Lemma comparable_sorted (l : list OCIConsumptionRow) :
  Forall comparable l -> StronglySorted notAfter (arraySort l).
Proof. intros H. apply arraySort_sorted, comparable_orderly, H. Qed.

Lemma arraySort_comparable (l : list OCIConsumptionRow) :
  Forall comparable l -> Forall comparable (arraySort l).
Proof.
  intros H. rewrite Forall_forall in *. intros a Ha. apply H.
  apply (Permutation_in _ (Permutation_sym (arraySort_perm l)) Ha).
Qed.

(** ** The chart of [Dashboard.tsx] *)

(** X4: the chart shows the five items with the highest amounts: [topSKUs]
    has [min 5 n] of the [n] items, the items it leaves out are the rest
    of the inventory, and when every amount is a Number other than [NaN],
    [topSKUs] is in non-increasing order of amount and no item left out
    has a higher amount than an item shown. *)
Theorem topSKUs_are_the_five_highest :
  forall consumption,
    Forall comparable consumption ->
    exists rest,
      Permutation consumption (topSKUs consumption ++ rest)
      /\ List.length (topSKUs consumption)
         = Nat.min 5 (List.length consumption)
      /\ nonIncreasing (topSKUs consumption)
      /\ forall a b, In a (topSKUs consumption) -> In b rest ->
           numberGe (cost a) (cost b) = true.
Proof.
  intros consumption Hc. unfold topSKUs.
  rewrite slice_firstn by lia. change (Z.to_nat 5) with 5%nat.
  exists (skipn 5 (arraySort consumption)).
  pose proof (comparable_sorted consumption Hc) as Hs.
  pose proof (arraySort_comparable consumption Hc) as Hc'.
  pose proof (sorted_nonIncreasing _ Hc' Hs) as Hn.
  repeat split.
  - rewrite firstn_skipn. apply arraySort_perm.
  - rewrite length_firstn.
    rewrite <- (Permutation_length (arraySort_perm consumption)).
    reflexivity.
  - apply StronglySorted_Sorted, StronglySorted_firstn, Hn.
  - intros a b Ha Hb.
    exact (StronglySorted_split _ _ Hn 5%nat a b Ha Hb).
Qed.

Lemma topSKUs_are_the_five_highest_witness :
  exists rest,
    Permutation sevenItems (topSKUs sevenItems ++ rest)
    /\ List.length (topSKUs sevenItems) = Nat.min 5 (List.length sevenItems)
    /\ nonIncreasing (topSKUs sevenItems)
    /\ forall a b, In a (topSKUs sevenItems) -> In b rest ->
         numberGe (cost a) (cost b) = true.
Proof.
  apply (topSKUs_are_the_five_highest sevenItems).
  repeat constructor.
Defined.


(** ** The cells that [processCSVData] reads *)

Lemma rowFields_cellsRead (row row' : list string) :
  cellsRead row = cellsRead row' -> rowFields row = rowFields row'.
Proof.
  unfold cellsRead, rowFields.
  destruct (Z.of_nat (List.length row) <? 9),
           (Z.of_nat (List.length row') <? 9);
    try discriminate; [reflexivity |].
  intros H.
  assert (nth_error row 2 = nth_error row' 2
          /\ nth_error row 3 = nth_error row' 3
          /\ nth_error row 4 = nth_error row' 4
          /\ nth_error row 8 = nth_error row' 8) as (H2 & H3 & H4 & H8)
    by (repeat split; congruence).
  rewrite H2, H3, H4, H8. reflexivity.
Qed.

Lemma forEach_cellsRead (rows rows' : list (list string)) :
  Forall2 (fun row row' => cellsRead row = cellsRead row') rows rows' ->
  forall st, forEach callback rows st = forEach callback rows' st.
Proof.
  induction 1 as [| row row' rows rows' Hrow _ IH]; intros st;
    [reflexivity |].
  cbn [forEach]. unfold callback at 1 3.
  rewrite (rowFields_cellsRead row row' Hrow).
  destruct (match rowFields row' with
            | Some f => accumulate f st
            | None => Normal st
            end) as [st' |]; cbn [bind]; [apply IH | reflexivity].
Qed.

Lemma selectRows_cellsRead (data data' : list (list string)) :
  sameCellsRead data data' ->
  match selectRows data, selectRows data' with
  | Normal rows, Normal rows' =>
      Forall2 (fun row row' => cellsRead row = cellsRead row') rows rows'
  | ThrowTypeError, ThrowTypeError => True
  | _, _ => False
  end.
Proof.
  intros [Hall Hhd]. unfold selectRows.
  destruct Hall as [| row row' rows rows' Hrow Hrows]; cbn [nth_error];
    [exact I |].
  cbn [nth_error option_map] in Hhd. injection Hhd as ->.
  destruct (isHeader row'); cbn [skipn]; [exact Hrows |].
  constructor; assumption.
Qed.

(** X6: the inventory depends only on the cells that the callback reads: two
    inputs whose rows agree on having fewer than 9 cells, and otherwise on
    the cells at the positions 2, 3, 4 and 8, and whose first rows agree
    on being the header, give the same result. *)
Theorem only_four_columns_are_read :
  forall rlm data data',
    sameCellsRead data data' ->
    processCSVData rlm data = processCSVData rlm data'.
Proof.
  intros rlm data data' H. unfold processCSVData. f_equal.
  unfold aggregate.
  rewrite (Forall2_length (proj1 H)).
  destruct (Z.of_nat (List.length data') =? 0); [reflexivity |].
  pose proof (selectRows_cellsRead data data' H) as Hsel.
  destruct (selectRows data) as [rows |], (selectRows data') as [rows' |];
    try contradiction; [| reflexivity].
  cbn [bind]. rewrite (forEach_cellsRead rows rows' Hsel). reflexivity.
Qed.

Lemma only_four_columns_are_read_witness :
  processCSVData initialRealm exampleRows
  = processCSVData initialRealm exampleRowsNoise.
Proof.
  apply (only_four_columns_are_read initialRealm exampleRows exampleRowsNoise).
  split; [repeat constructor | reflexivity].
Defined.

(** ** What a call leaves on [Object.prototype] *)

Lemma add_NaN (v : Number) : add NaN v = NaN.
Proof. reflexivity. Qed.

Lemma addToProperty_NaN (old : option Number) (v : Number) :
  nanOrAbsent old = true -> addToProperty old v = Some NaN.
Proof.
  destruct old as [[] |]; simpl; intros H; try discriminate; reflexivity.
Qed.

Lemma addToPrototype_polluted (rlm : Realm) (u c : Number) :
  realmOK rlm = true ->
  addToPrototype Cost (addToPrototype UsageAmount rlm u) c = polluted.
Proof.
  unfold realmOK. intros H. apply andb_prop in H as [Hu Hc].
  unfold addToPrototype, polluted.
  cbn [ObjectPrototype_usageAmount ObjectPrototype_cost].
  rewrite (addToProperty_NaN _ u Hu), (addToProperty_NaN _ c Hc).
  reflexivity.
Qed.

Lemma getInherited_proto (rlm : Realm) (k : string) :
  getInherited rlm k = ObjectPrototype <-> k = "__proto__".
Proof.
  unfold getInherited.
  destruct (String.eqb_spec k "__proto__") as [-> | Hne]; [tauto |].
  split; [| contradiction].
  destruct (existsb _ builtinFunctionNames); [discriminate |].
  destruct (String.eqb k "usageAmount");
    [destruct (ObjectPrototype_usageAmount rlm); discriminate |].
  destruct (String.eqb k "cost");
    [destruct (ObjectPrototype_cost rlm); discriminate | discriminate].
Qed.

Lemma polluted_ok : realmOK polluted = true.
Proof. reflexivity. Qed.

Lemma getInherited_not_Row (rlm : Realm) (k : string) (r : OCIConsumptionRow) :
  getInherited rlm k <> Row r.
Proof.
  unfold getInherited.
  destruct (String.eqb k "__proto__"); [discriminate |].
  destruct (existsb _ builtinFunctionNames); [discriminate |].
  destruct (String.eqb k "usageAmount");
    [destruct (ObjectPrototype_usageAmount rlm); discriminate |].
  destruct (String.eqb k "cost");
    [destruct (ObjectPrototype_cost rlm); discriminate | discriminate].
Qed.

Lemma accumulate_realm (f : RowFields) (rlm rlm' : Realm) (m m' : SkuMap) :
  realmOK rlm = true -> getOwn m "__proto__" = None ->
  accumulate f (rlm, m) = Normal (rlm', m') ->
  rlm' = (if String.eqb (skuId f) "__proto__" then polluted else rlm)
  /\ getOwn m' "__proto__" = None.
Proof.
  intros Hok Hm. unfold accumulate.
  destruct (String.eqb_spec (skuId f) "__proto__") as [Hk | Hk].
  - assert (getInherited rlm (skuId f) = ObjectPrototype) as E
      by (apply getInherited_proto; exact Hk).
    assert (getOwn m (skuId f) = None) as Eown by (rewrite Hk; exact Hm).
    unfold get at 1. rewrite Eown, E. cbn [ToBoolean].
    rewrite (compoundAdd_prototype _ _ _ _ _ Eown E). cbn [bind].
    rewrite (compoundAdd_prototype _ _ _ _ _ Eown
               (getInherited_prototype _ _ _ E)).
    intros [= <- <-]. split; [| exact Hm].
    apply addToPrototype_polluted. exact Hok.
  - assert (String.eqb (skuId f) "__proto__" = false) as Hkb
      by (apply String.eqb_neq; exact Hk).
    destruct (getOwn m (skuId f)) as [r |] eqn:Eown.
    + unfold get at 1. rewrite Eown. cbn [ToBoolean].
      rewrite (compoundAdd_own _ _ _ _ _ _ Eown). cbn [bind].
      erewrite compoundAdd_own
        by (rewrite getOwn_setOwn, String.eqb_refl, Eown; reflexivity).
      intros [= <- <-]. split; [reflexivity |].
      rewrite !getOwn_setOwn, Hkb. exact Hm.
    + unfold get at 1. rewrite Eown.
      assert (getOwn (m ++ [(skuId f, newRow f)]) "__proto__" = None) as Happ
        by (rewrite getOwn_app, Hm, Hkb; reflexivity).
      destruct (getInherited rlm (skuId f)) as [| n | r | |] eqn:E;
        cbn [ToBoolean].
      * intros [= <- <-]. auto.
      * destruct (JSNumber.ToBoolean n).
        -- unfold compoundAdd at 1, get. rewrite Eown, E. cbn [bind].
           discriminate.
        -- intros [= <- <-]. auto.
      * exfalso. exact (getInherited_not_Row _ _ _ E).
      * rewrite (compoundAdd_builtin _ _ _ _ _ Eown E). cbn [bind].
        rewrite (compoundAdd_builtin _ _ _ _ _ Eown E).
        intros [= <- <-]. auto.
      * exfalso. apply Hk. apply (getInherited_proto rlm). exact E.
Qed.

Lemma forEach_realm (rows : list (list string)) :
  forall rlm m rlm' m',
    realmOK rlm = true -> getOwn m "__proto__" = None ->
    forEach callback rows (rlm, m) = Normal (rlm', m') ->
    rlm' = if existsb (fun f => String.eqb (skuId f) "__proto__")
                (fieldsOf rows)
           then polluted else rlm.
Proof.
  induction rows as [| row rows IH]; intros rlm m rlm' m' Hok Hm;
    cbn [forEach fieldsOf].
  - intros [= <- <-]. reflexivity.
  - unfold callback at 1. destruct (rowFields row) as [f |].
    + destruct (accumulate f (rlm, m)) as [[rlm1 m1] |] eqn:E;
        cbn [bind]; [| discriminate].
      destruct (accumulate_realm f rlm rlm1 m m1 Hok Hm E) as [Hr Hm1].
      intros H. cbn [existsb].
      destruct (String.eqb (skuId f) "__proto__"); cbn [orb]; subst rlm1.
      * rewrite (IH _ _ _ _ polluted_ok Hm1 H).
        destruct (existsb _ (fieldsOf rows)); reflexivity.
      * exact (IH _ _ _ _ Hok Hm1 H).
    + cbn [bind]. apply IH; assumption.
Qed.

Lemma prototype_realm (rlm : Realm) (data : list (list string))
    (rlm' : Realm) (out : Outcome) :
  reachable rlm ->
  processCSVData rlm data = Normal (rlm', out) ->
  rlm' = if hasProtoId data then polluted else rlm.
Proof.
  intros Hr. pose proof (reachable_ok _ Hr) as Hok.
  destruct data as [| first rest].
  - rewrite processCSVData_empty. intros [= <- _]. reflexivity.
  - unfold processCSVData, aggregate.
    replace (Z.of_nat (List.length (first :: rest)) =? 0) with false
      by (symmetry; apply Z.eqb_neq; simpl List.length; lia).
    rewrite selectRows_rowsOf by discriminate. cbn [bind].
    destruct (forEach callback (rowsOf (first :: rest)) (rlm, []))
      as [[rlm1 m1] |] eqn:E; cbn [bind fst snd]; [| discriminate].
    intros [= <- _].
    exact (forEach_realm _ rlm [] rlm1 m1 Hok eq_refl E).
Qed.

(** X7: a call changes [Object.prototype] only when a row that passes lines
    73-75 has the id ["__proto__"]: then lines 85-86 leave the properties
    [usageAmount] and [cost] on it, both [NaN], for every object of the
    page to inherit; otherwise the realm is as before the call. *)
Theorem prototype_changes_only_for_the_id_proto :
  forall rlm data rlm' out,
    reachable rlm ->
    processCSVData rlm data = Normal (rlm', out) ->
    rlm' = if hasProtoId data then polluted else rlm.
Proof. exact prototype_realm. Qed.

Lemma prototype_changes_only_for_the_id_proto_witness :
  polluted = if hasProtoId exampleProto then polluted else initialRealm.
Proof.
  apply (prototype_changes_only_for_the_id_proto
           initialRealm exampleProto polluted (Update []) reach_initial).
  vm_compute. reflexivity.
Defined.

(** ** The keywords of [summarizeAndMatch] *)

Lemma append_empty_r (s : string) : (s ++ "")%string = s.
Proof. induction s as [| c s IH]; simpl; [reflexivity | f_equal; exact IH]. Qed.

Lemma append_assoc (a b c : string) :
  ((a ++ b) ++ c)%string = (a ++ b ++ c)%string.
Proof. induction a as [| x a IH]; simpl; [reflexivity | f_equal; exact IH]. Qed.

Lemma beforeFirst_here (sep s : string) :
  startsWith sep s = true -> beforeFirst sep s "".
Proof.
  intros H. apply startsWith_spec in H as [a Ha]. left. exists a. split.
  - exact Ha.
  - intros b' _. simpl. lia.
Qed.

Lemma beforeFirst_empty (sep : string) :
  sep <> "" -> beforeFirst sep "" "".
Proof.
  intros Hsep. right. split; [| reflexivity].
  intros b [a H]. destruct b; simpl in H; [| discriminate].
  destruct sep; [congruence | discriminate].
Qed.

Lemma beforeFirst_later (sep s w : string) (c : ascii) :
  startsWith sep (String c s) = false ->
  beforeFirst sep s w -> beforeFirst sep (String c s) (String c w).
Proof.
  intros Hno [[a [Hs Hmin]] | [Habs ->]].
  - left. exists a. split.
    + simpl. f_equal. exact Hs.
    + intros b' [a' Hb']. destruct b' as [| c' b'].
      * simpl in Hb'.
        assert (startsWith sep (String c s) = true) as H
          by (apply startsWith_spec; exists a'; exact Hb').
        congruence.
      * simpl in Hb'. injection Hb' as -> Hb'. simpl.
        apply le_n_S, Hmin. exists a'. exact Hb'.
  - right. split; [| reflexivity].
    intros b [a Hb]. destruct b as [| c' b]; simpl in Hb.
    + assert (startsWith sep (String c s) = true) as H
        by (apply startsWith_spec; exists a; exact Hb).
      congruence.
    + injection Hb as -> Hb. apply (Habs b). exists a. exact Hb.
Qed.

Lemma splitFrom_head (sep : string) :
  sep <> "" ->
  forall s cur, exists w,
    nth_error (splitFrom sep s 0 cur) 0 = Some (cur ++ w)%string
    /\ beforeFirst sep s w.
Proof.
  intros Hsep. induction s as [| c s IH]; intros cur; cbn [splitFrom].
  - exists "". rewrite append_empty_r. split.
    + destruct (startsWith sep ""); reflexivity.
    + apply beforeFirst_empty, Hsep.
  - destruct (startsWith sep (String c s)) eqn:E.
    + exists "". rewrite append_empty_r. split; [reflexivity |].
      apply beforeFirst_here, E.
    + destruct (IH (cur ++ String c "")%string) as (w & Hw & Hb).
      exists (String c w). split.
      * rewrite Hw, append_assoc. reflexivity.
      * apply beforeFirst_later; assumption.
Qed.

Lemma append_same_length (a b a' b' : string) :
  (a ++ b)%string = (a' ++ b')%string ->
  String.length a = String.length a' -> a = a'.
Proof.
  revert a'. induction a as [| c a IH]; intros [| c' a'] H Hl;
    simpl in *; try discriminate; [reflexivity |].
  injection H as -> H. f_equal. apply (IH a' H). lia.
Qed.

Lemma beforeFirst_unique (sep s w w' : string) :
  beforeFirst sep s w -> beforeFirst sep s w' -> w = w'.
Proof.
  intros [[a [Hs Hmin]] | [Habs ->]] [[a' [Hs' Hmin']] | [Habs' ->]].
  - apply (append_same_length w (sep ++ a) w' (sep ++ a')); [congruence |].
    apply Nat.le_antisymm.
    + apply Hmin. exists a'. exact Hs'.
    + apply Hmin'. exists a. exact Hs.
  - exfalso. apply (Habs' w). exists a. exact Hs.
  - exfalso. apply (Habs w'). exists a'. exact Hs'.
  - reflexivity.
Qed.

Lemma keywordOf_spec (s : OCIConsumptionRow) :
  exists w, keywordOf s = Some w /\ beforeFirst " - " (productName s) w.
Proof.
  unfold keywordOf, split.
  destruct (splitFrom_head " - " ltac:(discriminate) (productName s) "")
    as (w & Hw & Hb).
  exists w. split; [exact Hw | exact Hb].
Qed.

Lemma SameValueZero_eq (x y : option string) :
  SameValueZero x y = true <-> x = y.
Proof.
  destruct x as [a |], y as [b |]; simpl; try (split; congruence).
  rewrite String.eqb_eq. split; congruence.
Qed.

Lemma existsb_SameValueZero (x : option string) (l : list (option string)) :
  existsb (SameValueZero x) l = true <-> In x l.
Proof.
  rewrite existsb_exists. split.
  - intros (y & Hy & E). apply SameValueZero_eq in E. congruence.
  - intros H. exists x. split; [exact H | apply SameValueZero_eq; reflexivity].
Qed.

Lemma fold_setAdd (l : list (option string)) :
  forall acc, NoDup acc ->
    NoDup (fold_left setAdd l acc)
    /\ (List.length (fold_left setAdd l acc)
        <= List.length acc + List.length l)%nat
    /\ forall x, In x (fold_left setAdd l acc) <-> In x acc \/ In x l.
Proof.
  induction l as [| y l IH]; intros acc Hnd; cbn [fold_left].
  - repeat split; [exact Hnd | simpl; lia | tauto | simpl; tauto].
  - assert (NoDup (setAdd acc y)
            /\ (List.length (setAdd acc y) <= S (List.length acc))%nat
            /\ forall x, In x (setAdd acc y) <-> In x acc \/ x = y)
      as (Hnd' & Hlen' & Hin').
    { unfold setAdd. destruct (existsb (SameValueZero y) acc) eqn:E.
      - apply existsb_SameValueZero in E.
        repeat split; [exact Hnd | lia | tauto |].
        intros [H | ->]; assumption.
      - assert (~ In y acc) as Hny
          by (rewrite <- existsb_SameValueZero; congruence).
        repeat split.
        + apply NoDup_app; [exact Hnd | repeat constructor; simpl; tauto |].
          intros x Hx [<- | []]. exact (Hny Hx).
        + rewrite length_app. simpl. lia.
        + rewrite in_app_iff. simpl. intuition congruence.
        + rewrite in_app_iff. simpl. intuition congruence. }
    destruct (IH (setAdd acc y) Hnd') as (Hnd'' & Hlen'' & Hin'').
    repeat split; [exact Hnd'' | simpl; lia | |].
    + intros H. apply Hin'' in H as [H | H]; [| simpl; tauto].
      apply Hin' in H as [H | ->]; simpl; tauto.
    + intros [H | [<- | H]]; apply Hin''.
      * left. apply Hin'. tauto.
      * left. apply Hin'. tauto.
      * tauto.
Qed.

(** X8: the prompt of [summarizeAndMatch] names each service once and at most
    ten services: the keywords are pairwise distinct, and a text is a
    keyword exactly when it is the product name of one of the first ten
    items up to its first [" - "], or all of that name when it has no
    [" - "]. *)
Theorem service_keywords :
  forall skus,
    NoDup (keywords skus)
    /\ (List.length (keywords skus) <= 10)%nat
    /\ forall k, In k (keywords skus) <->
         exists s w, In s (firstn 10 skus)
                     /\ beforeFirst " - " (productName s) w /\ k = Some w.
Proof.
  intros skus. unfold keywords, SetValues, topSkus.
  rewrite slice_firstn by lia. change (Z.to_nat 10) with 10%nat.
  destruct (fold_setAdd (map keywordOf (firstn 10 skus)) [] (NoDup_nil _))
    as (Hnd & Hlen & Hin).
  repeat split.
  - exact Hnd.
  - rewrite length_map, length_firstn in Hlen.
    change (List.length (@nil (option string))) with 0%nat in Hlen. lia.
  - intros H. apply Hin in H as [[] | H].
    apply in_map_iff in H as (s & Hk & Hs).
    destruct (keywordOf_spec s) as (w & Hw & Hb).
    exists s, w. repeat split; [exact Hs | exact Hb | congruence].
  - intros (s & w & Hs & Hb & ->). apply Hin. right.
    apply in_map_iff. exists s. split; [| exact Hs].
    destruct (keywordOf_spec s) as (w' & Hw' & Hb').
    rewrite Hw'. f_equal. exact (beforeFirst_unique _ _ _ _ Hb' Hb).
Qed.

(** ** The state of the component *)

Lemma onParseComplete_inv (w w' : Realm * AppState)
    (data : list (list string)) :
  onParseComplete w data = Normal w' ->
  exists out, processCSVData (fst w) data = Normal (fst w', out)
              /\ snd w' = applyOutcome out (snd w).
Proof.
  unfold onParseComplete.
  destruct (processCSVData (fst w) data) as [[rlm' out] |]; cbn [bind];
    [| discriminate].
  intros [= <-]. exists out. auto.
Qed.

Lemma step_realm (w w' : Realm * AppState) :
  step w w' -> reachable (fst w) -> reachable (fst w').
Proof.
  intros [] Hr; try exact Hr.
  destruct (onParseComplete_inv _ _ _ H) as (out & E & _).
  exact (reach_call _ _ _ _ Hr E).
Qed.

Lemma reachableState_realm (w : Realm * AppState) :
  reachableState w -> reachable (fst w).
Proof.
  induction 1 as [| w w' _ IH Hs]; [exact reach_initial |].
  exact (step_realm _ _ Hs IH).
Qed.

(** X9: the status ["Mapping SKUs..."] and the bar of 70% are never shown:
    in every state that the component can reach, [analysisStep] is one of
    [idle], [parsing], [searching], [insights] and [complete], never
    [mapping]. *)
Theorem analysisStep_is_never_mapping :
  forall w, reachableState w -> In (analysisStep (snd w)) stepsInUse.
Proof.
  induction 1 as [| w w' _ IH Hs]; [simpl; tauto |].
  destruct Hs; try (simpl; tauto); try exact IH.
  destruct (onParseComplete_inv _ _ _ H) as ([| agg] & _ & ->).
  - exact IH.
  - simpl. tauto.
Qed.

Lemma analysisStep_is_never_mapping_witness :
  In (analysisStep (snd (initialRealm, startParsing initialState)))
     stepsInUse.
Proof.
  apply (analysisStep_is_never_mapping
           (initialRealm, startParsing initialState)).
  apply (reach_step (initialRealm, initialState)).
  - exact reach_first.
  - apply step_upload.
Defined.

Lemma step_error (w w' : Realm * AppState) (e : string) :
  step w w' -> error (snd w) = Some e ->
  exists e', error (snd w') = Some e'.
Proof.
  intros [] He; try (exists e; exact He); try (eexists; reflexivity).
  destruct (onParseComplete_inv _ _ _ H) as ([| agg] & _ & ->);
    exists e; exact He.
Qed.

(** X10: an error is never cleared: once [error] holds a message, it holds a
    message in every later state; no [setState] of the component sets it
    back to [null]. *)
Theorem error_is_never_cleared :
  forall w w' e,
    reaches w w' -> error (snd w) = Some e ->
    exists e', error (snd w') = Some e'.
Proof.
  intros w w' e Hl He. induction Hl as [| w w' w'' _ IH Hs].
  - exists e. exact He.
  - destruct (IH He) as [e' He']. exact (step_error _ _ _ Hs He').
Qed.

Lemma error_is_never_cleared_witness :
  exists e',
    error (snd (initialRealm, backToIdle (csvError initialState))) = Some e'.
Proof.
  apply (error_is_never_cleared
           (initialRealm, csvError initialState)
           (initialRealm, backToIdle (csvError initialState))
           "CSV Error").
  - apply (reaches_step _ (initialRealm, csvError initialState)).
    + apply reaches_now.
    + apply step_idle.
  - reflexivity.
Defined.

(** X11: the schedule is fixed except for the recipient: in every state that
    the component can reach, the briefing is weekly, on day 1, enabled and
    last sent ["Ready"]. *)
Theorem schedule_changes_only_in_the_recipient :
  forall w,
    reachableState w ->
    frequency (schedule (snd w)) = Weekly
    /\ dayOfWeek (schedule (snd w)) = ofDecimal false 1 0
    /\ enabled (schedule (snd w)) = true
    /\ lastSent (schedule (snd w)) = Some "Ready".
Proof.
  induction 1 as [| w w' _ IH Hs]; [repeat split |].
  destruct Hs; try exact IH.
  destruct (onParseComplete_inv _ _ _ H) as ([| agg] & _ & ->); exact IH.
Qed.

Lemma schedule_changes_only_in_the_recipient_witness :
  let w := (initialRealm, editRecipient "lead@example.com" initialState) in
  frequency (schedule (snd w)) = Weekly
  /\ dayOfWeek (schedule (snd w)) = ofDecimal false 1 0
  /\ enabled (schedule (snd w)) = true
  /\ lastSent (schedule (snd w)) = Some "Ready".
Proof.
  apply (schedule_changes_only_in_the_recipient
           (initialRealm, editRecipient "lead@example.com" initialState)).
  apply (reach_step (initialRealm, initialState)).
  - exact reach_first.
  - apply step_recipient.
Defined.

Lemma SAMPLE_DATA_NoDup : NoDup (map sku SAMPLE_DATA).
Proof.
  cbn [map SAMPLE_DATA sku].
  repeat constructor; simpl; intuition discriminate.
Qed.

(** X12: the rows of the table have distinct keys: in every state that the
    component can reach, no two items of [consumptionData] have the same
    [sku], which line 269 uses as the [key] of the row. *)
Theorem table_keys_are_distinct :
  forall w, reachableState w -> NoDup (map sku (consumptionData (snd w))).
Proof.
  induction 1 as [| w w' Hw IH Hs]; [constructor |].
  pose proof (reachableState_realm _ Hw) as Hr.
  destruct Hs; try exact IH; try exact SAMPLE_DATA_NoDup.
  destruct (onParseComplete_inv _ _ _ H) as ([| agg] & E & ->);
    [exact IH |].
  cbn [applyOutcome startSearching showTable set_analysisStep set_isLoading
       set_consumptionData consumptionData].
  destruct (processCSVData_Update _ _ _ _ (reachable_ok _ Hr) E) as [_ ->].
  apply output_NoDup.
Qed.

Lemma table_keys_are_distinct_witness :
  NoDup (map sku
           (consumptionData (snd (initialRealm, loadSampleData initialState)))).
Proof.
  apply (table_keys_are_distinct (initialRealm, loadSampleData initialState)).
  apply (reach_step (initialRealm, initialState)).
  - exact reach_first.
  - apply step_sample.
Defined.

Lemma SAMPLE_DATA_sorted : Sorted notAfter SAMPLE_DATA.
Proof.
  unfold SAMPLE_DATA.
  repeat (constructor; try (intros H; vm_compute in H; discriminate)).
Qed.

Lemma inventory_sorted (w : Realm * AppState) :
  reachableState w ->
  (forall it, In it (consumptionData (snd w)) -> isNaN (cost it) = false) ->
  Sorted notAfter (consumptionData (snd w)).
Proof.
  induction 1 as [| w w' Hw IH Hs]; [constructor |].
  pose proof (reachableState_realm _ Hw) as Hr.
  destruct Hs; try exact IH; try (intros _; exact SAMPLE_DATA_sorted).
  destruct (onParseComplete_inv _ _ _ H) as ([| agg] & E & ->);
    [exact IH |].
  cbn [applyOutcome startSearching showTable set_analysisStep set_isLoading
       set_consumptionData consumptionData].
  destruct (processCSVData_Update _ _ _ _ (reachable_ok _ Hr) E) as [_ ->].
  intros Hnan. apply StronglySorted_Sorted, comparable_sorted.
  apply Forall_forall. intros it Hit. split.
  - apply (ObjectValues_valid data it Hit).
  - apply Hnan. apply (Permutation_in _ (arraySort_perm _) Hit).
Qed.

(** X5: the chart shows the first rows of the table: in every state that the
    component can reach, when no amount of the inventory is [NaN], the
    inventory is already in the order of the comparator, so [topSKUs] is
    its first five items in the order of the table. *)
Theorem chart_shows_the_first_rows_of_the_table :
  forall w,
    reachableState w ->
    (forall it, In it (consumptionData (snd w)) -> isNaN (cost it) = false) ->
    topSKUs (consumptionData (snd w)) = firstn 5 (consumptionData (snd w)).
Proof.
  intros w Hw Hnan. unfold topSKUs. rewrite slice_firstn by lia.
  change (Z.to_nat 5) with 5%nat. f_equal.
  apply arraySort_fixed. exact (inventory_sorted w Hw Hnan).
Qed.

Lemma chart_shows_the_first_rows_of_the_table_witness :
  topSKUs (consumptionData (snd (initialRealm, loadSampleData initialState)))
  = firstn 5
      (consumptionData (snd (initialRealm, loadSampleData initialState))).
Proof.
  apply (chart_shows_the_first_rows_of_the_table
           (initialRealm, loadSampleData initialState)).
  - apply (reach_step (initialRealm, initialState)).
    + exact reach_first.
    + apply step_sample.
  - intros it Hit. vm_compute in Hit.
    destruct Hit as [<- | [<- | [<- | [<- | []]]]]; reflexivity.
Defined.

(** ** An upload *)

(** X13: what an upload does to the state.  Once the file is parsed, the call
    of [processCSVData] never throws; with no row at all it changes
    nothing, so the state stays as [handleFileUpload] left it, loading and
    at the step [parsing], with the button of [runAnalysis] disabled; with
    rows it shows the sorted inventory, ends the loading and starts the
    analysis at the step [searching]; the notes, the insights, the error
    and the schedule stay as they were.  When the parser reports an error
    instead, the loading ends with the error ["CSV Error"], but the step
    stays [parsing] and the button disabled. *)
Theorem upload_outcome :
  forall (File : Type) (file : File) (rlm : Realm) (st : AppState)
         (data : list (list string)),
    reachable rlm ->
    let started := handleFileUpload (Some file) st in
    (exists rlm' st',
       onParseComplete (rlm, started) data = Normal (rlm', st')
       /\ (data = [] ->
             isLoading st' = true /\ analysisStep st' = Parsing
             /\ consumptionData st' = consumptionData st
             /\ refreshDisabled st' = true)
       /\ (data <> [] ->
             isLoading st' = false /\ analysisStep st' = Searching
             /\ consumptionData st'
                = arraySort (ObjectValues (finalMap data)))
       /\ releaseNotes st' = releaseNotes st
       /\ insights st' = insights st
       /\ error st' = error st
       /\ schedule st' = schedule st)
    /\ isLoading (csvError started) = false
    /\ error (csvError started) = Some "CSV Error"
    /\ analysisStep (csvError started) = Parsing
    /\ refreshDisabled (csvError started) = true.
Proof.
  intros File file rlm st data Hr started. subst started.
  cbn [handleFileUpload]. split.
  - destruct (processCSVData_total rlm data (reachable_ok _ Hr))
      as (rlm' & out & E & Hempty & Hrows).
    exists rlm', (applyOutcome out (startParsing st)). split.
    + unfold onParseComplete. cbn [fst snd]. rewrite E. reflexivity.
    + destruct data as [| first rest].
      * destruct (Hempty eq_refl) as [_ ->]. cbn [applyOutcome].
        repeat split; try reflexivity; try congruence.
        unfold refreshDisabled. apply orb_true_r.
      * rewrite (Hrows ltac:(discriminate)). cbn [applyOutcome].
        repeat split; try reflexivity; try discriminate.
  - repeat split. unfold refreshDisabled. apply orb_true_r.
Qed.

Lemma upload_outcome_witness :
  let started := handleFileUpload (Some tt) initialState in
  (exists rlm' st',
     onParseComplete (initialRealm, started) exampleRows = Normal (rlm', st')
     /\ (exampleRows = [] ->
           isLoading st' = true /\ analysisStep st' = Parsing
           /\ consumptionData st' = consumptionData initialState
           /\ refreshDisabled st' = true)
     /\ (exampleRows <> [] ->
           isLoading st' = false /\ analysisStep st' = Searching
           /\ consumptionData st'
              = arraySort (ObjectValues (finalMap exampleRows)))
     /\ releaseNotes st' = releaseNotes initialState
     /\ insights st' = insights initialState
     /\ error st' = error initialState
     /\ schedule st' = schedule initialState)
  /\ isLoading (csvError started) = false
  /\ error (csvError started) = Some "CSV Error"
  /\ analysisStep (csvError started) = Parsing
  /\ refreshDisabled (csvError started) = true.
Proof.
  apply (upload_outcome Datatypes.unit tt initialRealm initialState
           exampleRows).
  exact reach_initial.
Defined.

(** ** The theme *)

(** X14: the theme survives a reload: after the effect has run for a value of
    [isDarkMode], the class [dark] of the document is that value, and a
    later first render that finds the same [localStorage] starts with
    that value, whatever the system prefers; the other keys of
    [localStorage] are left as they were. *)
Theorem theme_survives_reload :
  forall (isDarkMode : bool) (b : Browser) (cls prefers : bool),
    let stored := localStorage (themeEffect isDarkMode b) in
    classDark (themeEffect isDarkMode b) = isDarkMode
    /\ initialDarkMode
         {| localStorage := stored; classDark := cls;
            prefersDark := prefers |} = isDarkMode
    /\ forall k, String.eqb k "horizon-theme" = false ->
         getItem stored k = getItem (localStorage b) k.
Proof.
  intros isDarkMode b cls prefers stored. subst stored. repeat split.
  - destruct isDarkMode; reflexivity.
  - destruct isDarkMode; reflexivity.
  - intros k Hk. unfold getItem.
    destruct isDarkMode; unfold themeEffect, setItem;
      cbn [localStorage]; rewrite Hk; reflexivity.
Qed.

(** ** Amounts that are not negative *)

Lemma nonNegative_cases (x : Number) :
  nonNegative x = true <->
  match x with
  | S754_zero _ | S754_infinity false | S754_finite false _ _ => True
  | _ => False
  end.
Proof.
  destruct x as [[] | [] | | [] m e]; simpl; split; intros H;
    try contradiction; try discriminate; try reflexivity; exact I.
Qed.

Lemma signed_nonNegative (x : Number) : signed false x -> nonNegative x = true.
Proof.
  intros H. apply nonNegative_cases.
  destruct x as [? | [] | | [] m e]; simpl in H; try contradiction;
    try discriminate; exact I.
Qed.

Lemma add_nonNegative (x y : Number) :
  valid x = true -> valid y = true ->
  nonNegative x = true -> nonNegative y = true ->
  nonNegative (add x y) = true.
Proof.
  intros Vx Vy Hx Hy. apply valid_wellFormed in Vx, Vy.
  apply nonNegative_cases in Hx, Hy. apply nonNegative_cases.
  destruct x as [sx | [] | | [] mx ex]; try contradiction;
    destruct y as [sy | [] | | [] my ey]; try contradiction;
    try exact I.
  - unfold add, SFadd. destruct sx, sy; exact I.
  - simpl in Vx, Vy. apply Z.leb_le in Vx, Vy.
    apply nonNegative_cases, signed_nonNegative.
    unfold add, SFadd. cbn [cond_Zopp].
    apply (binary_normalize_sign
             (Zpos (fst (shl_align mx ex (Z.min ex ey))
                    + fst (shl_align my ey (Z.min ex ey))))
             (Z.min ex ey)).
    unfold emin in *. lia.
Qed.

Lemma nonNegative_not_NaN (x : Number) :
  nonNegative x = true -> isNaN x = false.
Proof. destruct x; simpl; intros H; try reflexivity; discriminate. Qed.

Lemma fold_add_nonNegative (l : list Number) : forall x,
  valid x = true -> nonNegative x = true ->
  Forall (fun y => valid y = true /\ nonNegative y = true) l ->
  nonNegative (fold_left add l x) = true.
Proof.
  induction l as [| y l IH]; intros x Vx Hx Hl; cbn [fold_left];
    [exact Hx |].
  inversion Hl as [| ? ? [Vy Hy] Hl']; subst.
  apply IH; [apply add_valid | apply add_nonNegative |]; assumption.
Qed.

Lemma expected_nonNegative (rows : list (list string)) (k : string)
    (it : OCIConsumptionRow) :
  (forall f, In f (fieldsOf rows) -> nonNegative (rowCost f) = true) ->
  expected k (fieldsOf rows) = Some it ->
  nonNegative (cost it) = true.
Proof.
  intros Hpos. unfold expected. destruct (shadowed k); [discriminate |].
  destruct (group k (fieldsOf rows)) as [| first later] eqn:E;
    [discriminate |].
  intros [= <-]. cbn [summary cost].
  assert (Hall : forall f, In f (first :: later) ->
                   valid (rowCost f) = true /\ nonNegative (rowCost f) = true).
  { intros f Hf. rewrite <- E in Hf. split.
    - apply (group_valid rows k f Hf).
    - apply Hpos. unfold group in Hf. apply filter_In in Hf. tauto. }
  apply fold_add_nonNegative; try (apply Hall; simpl; auto).
  apply Forall_forall. intros y Hy. apply in_map_iff in Hy as [f [<- Hf]].
  apply Hall. simpl. auto.
Qed.

(** X15: when no amount cell is negative, the inventory is in order: if the
    amount that every row passing lines 73-75 contributes is [>= 0]
    (a cell without a number contributes 0), then no amount of the
    output is negative or [NaN], and every item's amount is [>=] the
    amount of every later item. *)
Theorem amounts_that_are_not_negative_sort :
  forall rlm data rlm' out,
    reachable rlm ->
    processCSVData rlm data = Normal (rlm', Update out) ->
    (forall f, In f (fieldsOf (rowsOf data)) ->
       nonNegative (rowCost f) = true) ->
    Forall (fun it => nonNegative (cost it) = true) out
    /\ nonIncreasingThroughout out.
Proof.
  intros rlm data rlm' out Hr E Hpos.
  destruct (processCSVData_Update rlm rlm' data out (reachable_ok _ Hr) E)
    as [_ ->].
  assert (Hout : forall it,
            In it (arraySort (ObjectValues (finalMap data))) ->
            nonNegative (cost it) = true).
  { intros it Hit. apply output_items in Hit.
    exact (expected_nonNegative _ _ _ Hpos Hit). }
  split; [apply Forall_forall; exact Hout |].
  assert (Hc : Forall comparable (arraySort (ObjectValues (finalMap data)))).
  { apply Forall_forall. intros it Hit. split.
    - apply (output_valid data it Hit).
    - apply nonNegative_not_NaN, Hout, Hit. }
  apply sorted_nonIncreasing; [exact Hc |].
  apply arraySort_sorted, comparable_orderly.
  rewrite Forall_forall in Hc |- *. intros it Hit. apply Hc.
  apply (Permutation_in _ (arraySort_perm _)). exact Hit.
Qed.

Lemma amounts_that_are_not_negative_sort_witness :
  Forall (fun it => nonNegative (cost it) = true) exampleInventory
  /\ nonIncreasingThroughout exampleInventory.
Proof.
  apply (amounts_that_are_not_negative_sort
           initialRealm exampleRows initialRealm exampleInventory
           reach_initial).
  - vm_compute. reflexivity.
  - intros f Hf. vm_compute in Hf.
    destruct Hf as [<- | [<- | []]]; reflexivity.
Defined.

(** ** An upload whose rows are all skipped *)

Lemma fieldsOf_skipped (rows : list (list string)) :
  (forall row, In row rows -> rowFields row = None) -> fieldsOf rows = [].
Proof.
  induction rows as [| row rows IH]; intros H; cbn [fieldsOf];
    [reflexivity |].
  rewrite (H row (or_introl eq_refl)). apply IH.
  intros r Hr. apply H. right. exact Hr.
Qed.

(** X16: an upload whose rows are all skipped empties the inventory: when the
    file has rows but each row that line 70 selects has fewer than 9
    cells or an empty description cell, [consumptionData] becomes the
    empty list and the analysis starts at the step [searching] (a file
    with no row at all leaves the inventory as it was). *)
Theorem upload_of_skipped_rows_empties_the_inventory :
  forall (rlm : Realm) (st : AppState) (data : list (list string)),
    reachable rlm ->
    data <> [] ->
    (forall row, In row (rowsOf data) ->
       (List.length row < 9)%nat \/ nth_error row 2 = Some "") ->
    exists st',
      onParseComplete (rlm, st) data = Normal (rlm, st')
      /\ consumptionData st' = []
      /\ analysisStep st' = Searching
      /\ isLoading st' = false.
Proof.
  intros rlm st data Hr Hne Hskip.
  assert (fieldsOf (rowsOf data) = []) as Hf.
  { apply fieldsOf_skipped. intros row Hrow.
    apply rowFields_None, Hskip, Hrow. }
  destruct (processCSVData_total rlm data (reachable_ok _ Hr))
    as (rlm' & out & E & _ & Hrows).
  assert (rlm' = rlm) as ->.
  { rewrite (prototype_realm rlm data rlm' out Hr E).
    unfold hasProtoId. rewrite Hf. reflexivity. }
  rewrite (Hrows Hne) in E. unfold finalMap in E. rewrite Hf in E.
  exists (applyOutcome (Update []) st). split.
  - unfold onParseComplete. cbn [fst snd]. rewrite E. reflexivity.
  - repeat split.
Qed.

Lemma upload_of_skipped_rows_empties_the_inventory_witness :
  exists st',
    onParseComplete (initialRealm, loadSampleData initialState) exampleShort
    = Normal (initialRealm, st')
    /\ consumptionData st' = []
    /\ analysisStep st' = Searching
    /\ isLoading st' = false.
Proof.
  apply (upload_of_skipped_rows_empties_the_inventory
           initialRealm (loadSampleData initialState) exampleShort
           reach_initial).
  - discriminate.
  - intros row [<- | []]. left. simpl. lia.
Defined.

(** ** The order of items with equal amounts *)








Lemma precedes_In {A : Type} (l : list A) (a b : A) :
  precedes l a b -> In a l /\ In b l.
Proof.
  intros (l1 & l2 & l3 & ->). split.
  - apply in_or_app. right. left. reflexivity.
  - apply in_or_app. right. right. apply in_or_app. right. left. reflexivity.
Qed.

(** *** The sort is stable *)






(** *** The order of [Object.values] *)








(** *** The order of the keys of [skuMap] *)









(** ** The unit of an item *)

Lemma rowFields_unit (row : list string) (f : RowFields) :
  rowFields row = Some f -> exists u, unitCell f = Some u.
Proof.
  intros H. destruct (rowFields_numbers row f H) as (_ & _ & ->).
  destruct (nth_error row 3) as [u |] eqn:E; [exists u; reflexivity |].
  apply nth_error_None in E.
  assert (rowFields row = None) as Hn by (apply rowFields_None; left; lia).
  congruence.
Qed.

Lemma output_unit (data : list (list string)) (it : OCIConsumptionRow) :
  In it (arraySort (ObjectValues (finalMap data))) ->
  exists u, unit it = Some u.
Proof.
  intros Hit. apply output_items in Hit.
  destruct (expected_first _ _ _ Hit) as (first & later & Hg & ->).
  cbn [Props.summary unit].
  assert (In first (fieldsOf (rowsOf data))) as Hin.
  { assert (In first (group (sku (Props.summary first later))
                        (fieldsOf (rowsOf data)))) as H
      by (rewrite Hg; left; reflexivity).
    unfold group in H. apply filter_In in H. tauto. }
  apply fieldsOf_In in Hin as (row & _ & Hrow).
  exact (rowFields_unit row first Hrow).
Qed.

(** X18: no item of the inventory lacks its unit: in every state that the
    component can reach, the [unit] of every item of [consumptionData] is
    a string, never [undefined], although [processCSVData] stores
    [row[3]] as it finds it; a row that passes line 73 has that cell. *)
Theorem unit_is_never_undefined :
  forall w it,
    reachableState w ->
    In it (consumptionData (snd w)) ->
    exists u, unit it = Some u.
Proof.
  intros w it Hw. revert it.
  induction Hw as [| w w' Hw IH Hs]; [intros it [] |].
  pose proof (reachableState_realm _ Hw) as Hr.
  destruct Hs; try exact IH.
  - destruct (onParseComplete_inv _ _ _ H) as ([| agg] & E & ->);
      [exact IH |].
    cbn [applyOutcome startSearching showTable set_analysisStep set_isLoading
         set_consumptionData consumptionData].
    destruct (processCSVData_Update _ _ _ _ (reachable_ok _ Hr) E) as [_ ->].
    intros it Hit. exact (output_unit data it Hit).
  - intros it Hit. cbn in Hit.
    destruct Hit as [<- | [<- | [<- | [<- | []]]]]; eexists; reflexivity.
Qed.

Lemma unit_is_never_undefined_witness :
  exists u, unit item7 = Some u.
Proof.
  apply (unit_is_never_undefined
           (initialRealm, startSearching (showTable [item7; itemX] initialState))
           item7).
  - apply (reach_step (initialRealm, initialState)); [exact reach_first |].
    apply (step_complete _ _ exampleTies). vm_compute. reflexivity.
  - left. reflexivity.
Defined.
